(** * devlogd: the Chrome DevTools Protocol client and its event model

    A shallow embedding of [devlogd/core/cdp_client.py] and
    [devlogd/core/log_event.py], with the properties of the target
    directory, the session multiplexer, the network correlator, the log
    normaliser and the frame resolver.

    Conventions.
    - A [str | None] argument is an [option string]; Python's truth test on it
      is [truthy].
    - A protocol object that the code reads field by field with [.get] is a
      record whose fields are options at the protocol's types: [None] is an
      absent key.  Frames on the wire, command results and the values the
      protocol types as [any] are JSON values ([json]).
    - Numbers are integers ([Z]); [datetime] values are kept symbolic.
    - A function that can raise returns a [result]. *)

From Stdlib Require Import ZArith DecimalString.
From stdpp Require Import gmap strings list fin_maps.

Set Warnings "-register-all".
Local Open Scope string_scope.
Local Open Scope list_scope.
Local Open Scope Z_scope.

(** ** Python primitives *)

(** [needle in hay] on strings. *)
Fixpoint contains (needle hay : string) : bool :=
  String.prefix needle hay ||
  match hay with
  | EmptyString => false
  | String _ hay' => contains needle hay'
  end.

(** Truth value of a [str | None]. *)
Definition truthy (o : option string) : bool :=
  match o with
  | Some (String _ _) => true
  | _ => false
  end.

(** [str(n)] and [f"{n}"] for an [int]. *)
Definition str_of_int (n : Z) : string := NilZero.string_of_int (Z.to_int n).

(** [sep.join(parts)]. *)
Fixpoint join (sep : string) (parts : list string) : string :=
  match parts with
  | [] => ""
  | [p] => p
  | p :: rest => p +:+ sep +:+ join sep rest
  end.

(** JSON values as [json.loads] returns them. *)
Inductive json :=
| JNull
| JBool (b : bool)
| JInt (n : Z)
| JStr (s : string)
| JList (l : list json)
| JDict (kvs : list (string * json)).

(** [key in d] and [d.get(key)] for a dict given by its items, whose keys
    are distinct. *)
Fixpoint dict_get (key : string) (kvs : list (string * json)) : option json :=
  match kvs with
  | [] => None
  | (k, v) :: rest => if String.eqb k key then Some v else dict_get key rest
  end.

(** ** Exceptions ([devlogd/core/exceptions.py] and the built-in ones) *)

Inductive exn :=
| CDPConnectionError (msg : string)
| TargetNotFoundError (msg : string)
| CDPProtocolError (code message : json)
| ValidationError (field : string)
| IndexError
| TypeError
| AttributeError
| ConnectionClosed
| TimestampError.

Inductive result (A : Type) :=
| Ok (a : A)
| Raise (e : exn).
Arguments Ok {A} a.
Arguments Raise {A} e.

(** ** Target directory *)

Module CDPTarget.
Record t := mk {
  id : string;
  title : string;
  url : string;
  target_type : string;
  websocket_url : string
}.
End CDPTarget.

(** [for t in targets: if p(t): return t], [None] when the loop ends. *)
Fixpoint first_where {A} (p : A -> bool) (l : list A) : option A :=
  match l with
  | [] => None
  | x :: rest => if p x then Some x else first_where p rest
  end.

Definition is_page (t : CDPTarget.t) : bool :=
  String.eqb (CDPTarget.target_type t) "page".

(** [CDPClient.find_target], on the list that [list_targets] returned. *)
Definition find_target (targets : list CDPTarget.t)
    (target_id url_filter title_filter : option string) : result CDPTarget.t :=
  match targets with
  | [] => Raise (TargetNotFoundError "No targets available")
  | first :: _ =>
    if truthy target_id then
      let target_id := default "" target_id in
      match first_where (fun t => String.eqb (CDPTarget.id t) target_id) targets with
      | Some t => Ok t
      | None => Raise (TargetNotFoundError ("Target " +:+ target_id +:+ " not found"))
      end
    else
      let page_targets := List.filter is_page targets in
      if truthy url_filter then
        let url_filter := default "" url_filter in
        match first_where (fun t => contains url_filter (CDPTarget.url t)) page_targets with
        | Some t => Ok t
        | None =>
          Raise (TargetNotFoundError ("No target matching URL '" +:+ url_filter +:+ "'"))
        end
      else if truthy title_filter then
        let title_filter := default "" title_filter in
        match first_where (fun t => contains title_filter (CDPTarget.title t)) page_targets with
        | Some t => Ok t
        | None =>
          Raise (TargetNotFoundError ("No target matching title '" +:+ title_filter +:+ "'"))
        end
      else
        match page_targets with
        | p :: _ => Ok p
        | [] => Ok first
        end
  end.

(** The resolution rule in the words of the specification: which selector
    applies, and what each selector resolves to ([None] is [NotFound]). *)
Inductive selector :=
| ById (i : string)
| ByUrl (u : string)
| ByTitle (t : string)
| ByDefault.

Definition given (o : option string) : option string :=
  match o with
  | Some "" => None
  | _ => o
  end.

Definition selector_of (target_id url_filter title_filter : option string) : selector :=
  match given target_id, given url_filter, given title_filter with
  | Some i, _, _ => ById i
  | None, Some u, _ => ByUrl u
  | None, None, Some t => ByTitle t
  | None, None, None => ByDefault
  end.

Definition resolve_spec (targets : list CDPTarget.t) (sel : selector) : option CDPTarget.t :=
  match sel with
  | ById i => head (List.filter (fun t => String.eqb (CDPTarget.id t) i) targets)
  | ByUrl u =>
    head (List.filter (fun t => is_page t && contains u (CDPTarget.url t)) targets)
  | ByTitle s =>
    head (List.filter (fun t => is_page t && contains s (CDPTarget.title t)) targets)
  | ByDefault =>
    match head (List.filter is_page targets) with
    | Some p => Some p
    | None => head targets
    end
  end.

(** [find_target] agrees with a resolution: the target found, or
    [TargetNotFoundError] and nothing else. *)
Definition resolves_to (r : result CDPTarget.t) (o : option CDPTarget.t) : Prop :=
  match r with
  | Ok t => o = Some t
  | Raise (TargetNotFoundError _) => o = None
  | Raise _ => False
  end.

(** An empty-string selector, and an absent one. *)
Definition blank (empty_string : bool) : option string :=
  if empty_string then Some "" else None.

(** The directory of the specification's example. *)
Definition page_a : CDPTarget.t := CDPTarget.mk "a" "" "http://x/foo" "page" "ws://a".
Definition worker_b : CDPTarget.t := CDPTarget.mk "b" "" "http://y" "worker" "ws://b".
Definition dir_example : list CDPTarget.t := [page_a; worker_b].

(** ** Session: the protocol multiplexer *)

(** [key in message] for a decoded frame: key membership on a dict, element
    membership on a list, substring on a string, [TypeError] otherwise. *)
Definition py_in (key : string) (message : json) : result bool :=
  match message with
  | JDict kvs => Ok (bool_decide (is_Some (dict_get key kvs)))
  | JList l =>
    Ok (existsb (fun x => match x with JStr s => String.eqb s key | _ => false end) l)
  | JStr s => Ok (contains key s)
  | JNull | JBool _ | JInt _ => Raise TypeError
  end.

(** [message[key]] once [key in message] holds: only a dict can be
    subscripted by a string. *)
Definition py_getitem (key : string) (message : json) : result json :=
  match message with
  | JDict kvs =>
    match dict_get key kvs with
    | Some v => Ok v
    | None => Raise TypeError
    end
  | _ => Raise TypeError
  end.

(** The key of an [int]-keyed dict that a JSON value is equal to, as
    [dict.pop] sees it: [True == 1] and [False == 0], a string or [None] is
    equal to no key, and a list or a dict is unhashable. *)
Definition int_key (j : json) : result (option Z) :=
  match j with
  | JInt n => Ok (Some n)
  | JBool b => Ok (Some (if b then 1 else 0))
  | JNull | JStr _ => Ok None
  | JList _ | JDict _ => Raise TypeError
  end.

(** An [asyncio.Future] created by [send_command]. *)
Inductive future :=
| FPending
| FResult (r : json)
| FException (e : exn)
| FCancelled.

Definition future_done (f : future) : bool :=
  match f with
  | FPending => false
  | _ => true
  end.

(** The websocket: the messages written to it (each [json.dumps] text is
    kept as the value it serialises) and whether the peer has closed it. *)
Record ClientConnection := {
  sent : list json;
  closed : bool
}.

(** What the channel delivers to [async for raw_message in self._ws]: a
    frame that decodes to a JSON value, a frame that [decode] or
    [json.loads] rejects, or the end of the connection. *)
Inductive incoming :=
| Message (m : json)
| Malformed
| Closed.

Module CDPClient.
(** The attributes of a client.  [_pending_commands] maps a message id to
    the future registered for it, a reference into the heap [futures] of
    [state]; [_recv_task] is [Some true] while the receive loop runs and
    [Some false] once it has returned. *)
Record t := mk {
  _ws : option ClientConnection;
  _message_id : Z;
  _pending_commands : gmap Z Z;
  _event_queue : list json;
  _recv_task : option bool;
  _current_target : option CDPTarget.t
}.

(** [__init__]. *)
Definition init : t := mk None 0 ∅ [] None None.
End CDPClient.

Import CDPClient.

(** The client together with the objects it shares with its coroutines:
    the futures created so far (the future of the call with message id [k]
    is at reference [k]), the calls suspended in [asyncio.wait_for] with
    their method and deadline, and the clock. *)
Record state := {
  self : CDPClient.t;
  futures : gmap Z future;
  awaited : gmap Z (string * Z);
  clock : Z
}.

Definition COMMAND_TIMEOUT : Z := 30.

Definition set_self (st : state) (c : CDPClient.t) : state :=
  {| self := c; futures := futures st; awaited := awaited st; clock := clock st |}.

(** [connect], when [websockets.connect] succeeds. *)
Definition connect (target : CDPTarget.t) (st : state) : state :=
  set_self st
    (mk (Some {| sent := []; closed := false |}) (_message_id (self st))
        (_pending_commands (self st)) (_event_queue (self st))
        (Some true) (Some target)).

(** [disconnect]. *)
Definition disconnect (st : state) : state :=
  set_self st
    (mk None (_message_id (self st)) ∅ (_event_queue (self st)) None None).

(** What a caller of [send_command] sees when the call stops running: it
    raised before the [await], or it is suspended in [wait_for] on the
    future of its message id. *)
Inductive send_outcome :=
| SendRaised (e : exn)
| Suspended (msg_id : Z).

(** [send_command], up to its [await asyncio.wait_for(future, 30.0)].  A
    write to a connection that the peer has closed raises the websockets
    exception [ConnectionClosed] out of the call, after the future was
    registered. *)
Definition send_command (method : string) (params : option (list (string * json)))
    (st : state) : state * send_outcome :=
  let c := self st in
  match _ws c with
  | None => (st, SendRaised (CDPConnectionError "Not connected to any target"))
  | Some ws =>
    let msg_id := _message_id c + 1 in
    let message :=
      JDict ([("id", JInt msg_id); ("method", JStr method)] ++
             match params with
             | Some (kv :: kvs) => [("params", JDict (kv :: kvs))]
             | _ => []
             end) in
    let pending := <[msg_id := msg_id]> (_pending_commands c) in
    if closed ws then
      ({| self := mk (Some ws) msg_id pending (_event_queue c) (_recv_task c)
                     (_current_target c);
          futures := <[msg_id := FPending]> (futures st);
          awaited := awaited st;
          clock := clock st |},
       SendRaised ConnectionClosed)
    else
      ({| self := mk (Some {| sent := sent ws ++ [message]; closed := false |})
                     msg_id pending (_event_queue c) (_recv_task c) (_current_target c);
          futures := <[msg_id := FPending]> (futures st);
          awaited := <[msg_id := (method, clock st + COMMAND_TIMEOUT)]> (awaited st);
          clock := clock st |},
       Suspended msg_id)
  end.

(** [message.get(key, dflt)]. *)
Definition py_get (key : string) (dflt : json) (message : json) : result json :=
  match message with
  | JDict kvs => Ok (default dflt (dict_get key kvs))
  | _ => Raise AttributeError
  end.

Definition set_pending (st : state) (p : gmap Z Z) : state :=
  let c := self st in
  set_self st (mk (_ws c) (_message_id c) p (_event_queue c) (_recv_task c)
                  (_current_target c)).

Definition set_event_queue (st : state) (q : list json) : state :=
  let c := self st in
  set_self st (mk (_ws c) (_message_id c) (_pending_commands c) q (_recv_task c)
                  (_current_target c)).

Definition set_future (st : state) (ref : Z) (f : future) : state :=
  {| self := self st; futures := <[ref := f]> (futures st);
     awaited := awaited st; clock := clock st |}.

(** The receive loop returns: every [except] clause sits outside the
    [async for], so an exception raised while handling one frame ends the
    loop. *)
Definition recv_return (st : state) : state :=
  let c := self st in
  set_self st (mk (_ws c) (_message_id c) (_pending_commands c) (_event_queue c)
                  (Some false) (_current_target c)).

(** The body of the [async for] of [_receive_loop] on one decoded message:
    the state it reaches, and the exception that escapes it, if any. *)
Definition handle_message (message : json) (st : state) : state * option exn :=
  match py_in "id" message with
  | Raise e => (st, Some e)
  | Ok false => (set_event_queue st (_event_queue (self st) ++ [message]), None)
  | Ok true =>
    match py_getitem "id" message with
    | Raise e => (st, Some e)
    | Ok msg_id =>
      match int_key msg_id with
      | Raise e => (st, Some e)
      | Ok key =>
        let pending := _pending_commands (self st) in
        let future := key ≫= (fun k => pending !! k) in
        let st := match key with
                  | Some k => set_pending st (delete k pending)
                  | None => st
                  end in
        match future with
        | None => (st, None)
        | Some ref =>
          match futures st !! ref with
          | Some FPending =>
            match py_in "error" message with
            | Raise e => (st, Some e)
            | Ok true =>
              match py_getitem "error" message with
              | Raise e => (st, Some e)
              | Ok err =>
                match py_get "code" (JInt (-1)) err, py_get "message" (JStr "") err with
                | Ok code, Ok msg =>
                  (set_future st ref (FException (CDPProtocolError code msg)), None)
                | Raise e, _ | _, Raise e => (st, Some e)
                end
              end
            | Ok false =>
              match py_get "result" (JDict []) message with
              | Ok r => (set_future st ref (FResult r), None)
              | Raise e => (st, Some e)
              end
            end
          | _ => (st, None)
          end
        end
      end
    end
  end.

(** One delivery of the channel to [_receive_loop]; nothing reads the
    channel unless the receive task is running. *)
Definition receive (i : incoming) (st : state) : state :=
  match _recv_task (self st) with
  | Some true =>
    match i with
    | Message message =>
      match handle_message message st with
      | (st', None) => st'
      | (st', Some _) => recv_return st'
      end
    | Malformed => recv_return st
    | Closed =>
      let c := self st in
      recv_return
        (set_self st
           (mk (option_map (fun ws => {| sent := sent ws; closed := true |}) (_ws c))
               (_message_id c) (_pending_commands c) (_event_queue c) (_recv_task c)
               (_current_target c)))
    end
  | _ => st
  end.

(** [_receive_loop] over the deliveries of the channel, in order. *)
Definition receive_loop (frames : list incoming) (st : state) : state :=
  foldl (fun st i => receive i st) st frames.

(** The [except TimeoutError] branch of [send_command]: [wait_for] gives up
    on a call once its deadline has passed and its future is still pending;
    it cancels the future, the handler pops the slot and raises. *)
Definition timeout (msg_id : Z) (st : state) : state * option exn :=
  match awaited st !! msg_id with
  | Some (method, deadline) =>
    match futures st !! msg_id with
    | Some FPending =>
      if bool_decide (deadline ≤ clock st) then
        (set_future (set_pending st (delete msg_id (_pending_commands (self st))))
                    msg_id FCancelled,
         Some (CDPConnectionError ("Timeout waiting for response to " +:+ method)))
      else (st, None)
    | _ => (st, None)
    end
  | None => (st, None)
  end.

(** How a suspended [send_command] call has completed, if it has: with the
    result or the exception set on its future, or with the timeout error. *)
Definition completion (msg_id : Z) (st : state) : option (result json) :=
  match awaited st !! msg_id with
  | Some (method, _) =>
    match futures st !! msg_id with
    | Some (FResult r) => Some (Ok r)
    | Some (FException e) => Some (Raise e)
    | Some FCancelled =>
      Some (Raise (CDPConnectionError ("Timeout waiting for response to " +:+ method)))
    | _ => None
    end
  | None => None
  end.

(** The first [n] events that [stream_events] yields; it yields fewer when
    the queue runs empty, where [_event_queue.get()] blocks. *)
Fixpoint stream_events (n : nat) (st : state) : list json * state :=
  match n with
  | O => ([], st)
  | S n' =>
    match _event_queue (self st) with
    | [] => ([], st)
    | event :: q =>
      let (events, st') := stream_events n' (set_event_queue st q) in
      (event :: events, st')
    end
  end.

(** The clock advances by [dt] time units. *)
Definition tick (dt : N) (st : state) : state :=
  {| self := self st; futures := futures st; awaited := awaited st;
     clock := clock st + Z.of_N dt |}.

(** The session as a transition system: what the callers, the channel and
    the clock can do to it.  A run is the life of one connection and of
    calls that are awaited to their end: reconnecting, and cancelling the
    task that awaits a call, are not among the actions. *)
Inductive action :=
| ASendCommand (method : string) (params : option (list (string * json)))
| AReceive (i : incoming)
| ATimeout (msg_id : Z)
| ATick (dt : N)
| ADisconnect
| ANextEvent.

Inductive observation :=
| OSend (o : send_outcome)
| OTimeout (e : option exn)
| OEvents (events : list json)
| OSilent.

Definition step (st : state) (a : action) : state * observation :=
  match a with
  | ASendCommand method params =>
    let (st', o) := send_command method params st in (st', OSend o)
  | AReceive i => (receive i st, OSilent)
  | ATimeout msg_id =>
    let (st', e) := timeout msg_id st in (st', OTimeout e)
  | ATick dt => (tick dt st, OSilent)
  | ADisconnect => (disconnect st, OSilent)
  | ANextEvent =>
    let (events, st') := stream_events 1 st in (st', OEvents events)
  end.

Fixpoint run (st : state) (acts : list action) : state :=
  match acts with
  | [] => st
  | a :: rest => run (fst (step st a)) rest
  end.

(** A state with no client connected and nothing allocated. *)
Definition initial : state :=
  {| self := CDPClient.init; futures := ∅; awaited := ∅; clock := 0 |}.

(** A fresh client connected to [target]. *)
Definition connected (target : CDPTarget.t) : state := connect target initial.

(** *** Frames, and the claims about the session in the specification's words *)

(** A message carries a request id: it is an object with an ["id"] key. *)
Definition carries_id (message : json) : bool :=
  match message with
  | JDict kvs => bool_decide (is_Some (dict_get "id" kvs))
  | _ => false
  end.

(** A message carries a request id that matches a currently-pending
    request. *)
Definition matches_pending (st : state) (message : json) : bool :=
  match message with
  | JDict kvs =>
    match dict_get "id" kvs with
    | Some msg_id =>
      match int_key msg_id with
      | Ok (Some k) => bool_decide (is_Some (_pending_commands (self st) !! k))
      | _ => false
      end
    | None => false
    end
  | _ => false
  end.

(** The events of a sequence of deliveries as the specification states
    them: every message that does not carry a request id matching a request
    pending when it arrives, in arrival order. *)
Fixpoint events_as_claimed (st : state) (frames : list incoming) : list json :=
  match frames with
  | [] => []
  | i :: rest =>
    match i with
    | Message message => if matches_pending st message then [] else [message]
    | _ => []
    end ++ events_as_claimed (receive i st) rest
  end.

(** The events of a sequence of deliveries: the messages that carry no
    request id, in arrival order. *)
Definition events_of (frames : list incoming) : list json :=
  omap (fun i => match i with
                 | Message message => if carries_id message then None else Some message
                 | _ => None
                 end) frames.

(** A delivery in the shape of the protocol: a JSON object whose id, when
    it has one, is a scalar, and whose error, when it has one, is an
    object. *)
Definition well_formed (i : incoming) : bool :=
  match i with
  | Message (JDict kvs) =>
    match dict_get "id" kvs with
    | None => true
    | Some msg_id =>
      match msg_id with
      | JList _ | JDict _ => false
      | _ => true
      end &&
      match dict_get "error" kvs with
      | None | Some (JDict _) => true
      | Some _ => false
      end
    end
  | _ => false
  end.

(** The claim about [disconnect] as the specification states it: no call
    suspended in [send_command] is left unresolved after [disconnect]. *)
Definition resolved_after_disconnect (st : state) : Prop :=
  forall msg_id, is_Some (awaited st !! msg_id) ->
    is_Some (completion msg_id (disconnect st)).

(** The timeout error of a call of [method]. *)
Definition timeout_error (method : string) : exn :=
  CDPConnectionError ("Timeout waiting for response to " +:+ method).

(** The invariant of the session: message ids in use are at most the
    counter, a pending slot of id [k] refers to the future of call [k],
    every awaited call has its future, and the only exception ever set on a
    future is a [CDPProtocolError]. *)
Record session_invariant (st : state) : Prop := {
  inv_futures : forall k f, futures st !! k = Some f -> k <= _message_id (self st);
  inv_pending : forall k ref, _pending_commands (self st) !! k = Some ref -> ref = k;
  inv_awaited : forall k v, awaited st !! k = Some v -> is_Some (futures st !! k);
  inv_exception : forall k e, futures st !! k = Some (FException e) ->
                    exists code message, e = CDPProtocolError code message
}.

(** A reply to a request that nobody is waiting for, and an event. *)
Definition unmatched_reply : json := JDict [("id", JInt 7); ("result", JDict [])].
Definition load_event : json :=
  JDict [("method", JStr "Page.loadEventFired"); ("params", JDict [])].

(** How a future may change: not at all, or from pending to cancelled, to a
    result, or to a [CDPProtocolError]. *)
Definition settled (f : future) : Prop :=
  match f with
  | FCancelled | FResult _ | FException (CDPProtocolError _ _) => True
  | _ => False
  end.

Definition future_step (f f' : future) : Prop :=
  f' = f \/ (f = FPending /\ settled f').

(** A transition that allocates no message id: the counter and the awaited
    calls stay, pending slots are only removed, and futures only settle. *)
Record evolves (st st' : state) : Prop := {
  ev_counter : _message_id (self st') = _message_id (self st);
  ev_pending : forall k ref, _pending_commands (self st') !! k = Some ref ->
                 _pending_commands (self st) !! k = Some ref;
  ev_awaited : awaited st' = awaited st;
  ev_futures : forall k f, futures st !! k = Some f ->
                 exists f', futures st' !! k = Some f' /\ future_step f f';
  ev_no_new : forall k, futures st !! k = None -> futures st' !! k = None
}.

(** No connection and no receive task: the state after [disconnect]. *)
Definition disconnected (st : state) : Prop :=
  _ws (self st) = None /\ _recv_task (self st) = None.

(** A call that is still pending, or that its timeout has cancelled once
    the deadline had passed. *)
Definition pending_or_timed_out (msg_id : Z) (method : string) (deadline : Z)
    (st : state) : Prop :=
  awaited st !! msg_id = Some (method, deadline) /\
  (futures st !! msg_id = Some FPending \/
   futures st !! msg_id = Some FCancelled /\ deadline <= clock st).

(** ** Event model ([log_event.py]) *)

Inductive LogLevel := DEBUG | INFO | WARN | ERROR.
Inductive LogKind := CONSOLE | EXCEPTION | BROWSER_LOG.
Inductive WatchEventKind :=
  CLICK | NAVIGATION | REQUEST | REDIRECT | MESSAGE | RESPONSE | FAILED.

(** A timezone-aware [datetime], kept symbolic: the current time, or the
    instant of a protocol timestamp. *)
Inductive datetime :=
| utc_now
| utc_fromtimestamp_ms (timestamp : Z).

(** The instants that a [datetime] can hold, in milliseconds since the
    epoch: from 0001-01-01T00:00:00 to 9999-12-31T23:59:59.999, UTC. *)
Definition MIN_TIMESTAMP : Z := -62135596800000.
Definition MAX_TIMESTAMP : Z := 253402300799999.

(** [_parse_cdp_timestamp].  [datetime.fromtimestamp(timestamp / 1000.0,
    tz=UTC)] raises outside the range of [datetime]: [ValueError] for a
    year out of range, and [OverflowError] or [OSError] further out, where
    the instant no longer fits the platform's time types.  [TimestampError]
    stands for these three. *)
Definition _parse_cdp_timestamp (timestamp : option Z) : result datetime :=
  match timestamp with
  | None => Ok utc_now
  | Some t =>
    if bool_decide (MIN_TIMESTAMP ≤ t ≤ MAX_TIMESTAMP) then Ok (utc_fromtimestamp_ms t)
    else Raise TimestampError
  end.

Record TargetInfo := {
  ti_id : string;
  ti_title : string;
  ti_url : string
}.

Definition to_target_info (t : CDPTarget.t) : TargetInfo :=
  {| ti_id := CDPTarget.id t; ti_title := CDPTarget.title t; ti_url := CDPTarget.url t |}.

Record SourceLocation := {
  sl_url : string;
  sl_line : Z;
  sl_column : Z
}.

(** *** Protocol objects

    An object that the code reads with [.get] is a record of the keys read,
    each present or absent. *)

(** [Runtime.CallFrame]. *)
Record CallFrame := {
  functionName : option string;
  cf_url : option string;
  lineNumber : option Z;
  columnNumber : option Z
}.

(** [Runtime.RemoteObject], as far as an exception is read. *)
Record RemoteObject := {
  description : option string;
  value : option json
}.

Record StackTrace := {
  callFrames : option (list CallFrame)
}.

Record ExceptionDetails := {
  exception : option RemoteObject;
  stackTrace : option StackTrace;
  executionContextId : option Z
}.

(** The parameters of [Runtime.exceptionThrown]. *)
Record ExceptionThrown := {
  et_timestamp : option Z;
  exceptionDetails : option ExceptionDetails
}.

(** [Network.Request] and [Network.Response], as far as they are read. *)
Record Request := {
  rq_url : option string;
  rq_method : option string
}.

Record Response := {
  rs_url : option string;
  rs_status : option Z;
  rs_mimeType : option string;
  rs_other_keys : bool
}.

(** The truth value of a response object: a dict is true unless it is
    empty.  [rs_other_keys] tells whether the object has keys besides the
    three that are read. *)
Definition response_truthy (r : option Response) : bool :=
  match r with
  | None => false
  | Some r =>
    bool_decide (is_Some (rs_url r)) || bool_decide (is_Some (rs_status r)) ||
    bool_decide (is_Some (rs_mimeType r)) || rs_other_keys r
  end.

(** The parameters of the [Network.*] events: the keys that the correlator
    and the [WatchEvent] constructors read. *)
Record Params := {
  requestId : option string;
  type : option string;
  request : option Request;
  response : option Response;
  redirectResponse : option Response;
  frameId : option string;
  timestamp : option Z;
  errorText : option string
}.

(** An event as [stream_events] yields it. *)
Record Event := {
  method : option string;
  params : option Params
}.

(** What [.get(key, {})] returns for an absent object. *)
Definition no_call_frame : CallFrame := Build_CallFrame None None None None.
Definition no_remote_object : RemoteObject := Build_RemoteObject None None.
Definition no_stack_trace : StackTrace := Build_StackTrace None.
Definition no_exception_details : ExceptionDetails := Build_ExceptionDetails None None None.
Definition no_request : Request := Build_Request None None.
Definition no_response : Response := Build_Response None None None false.
Definition no_params : Params := Build_Params None None None None None None None None.

(** *** Log normaliser *)

Module LogEvent.
Record t := mk {
  ts : datetime;
  level : LogLevel;
  kind : LogKind;
  text : string;
  args : list json;
  source : option SourceLocation;
  stack : option string;
  target : option TargetInfo;
  execution_context_id : option Z
}.
End LogEvent.

Definition newline : string := String (Ascii.ascii_of_nat 10) EmptyString.

(** The [for] loop of [_format_stack_trace], appending to [lines]. *)
Fixpoint _format_stack_trace_loop (call_frames : list CallFrame) (lines : list string)
    : list string :=
  match call_frames with
  | [] => lines
  | frame :: rest =>
    let fn_name := default "(anonymous)" (functionName frame) in
    let url := default "" (cf_url frame) in
    let line_num := default 0 (lineNumber frame) in
    let col := default 0 (columnNumber frame) in
    _format_stack_trace_loop rest
      (lines ++ ["    at " +:+ fn_name +:+ " (" +:+ url +:+ ":" +:+ str_of_int line_num
                 +:+ ":" +:+ str_of_int col +:+ ")"])
  end.

Definition _format_stack_trace (call_frames : list CallFrame) : string :=
  join newline (_format_stack_trace_loop call_frames []).

(** The validation of a [str] field: a string passes, any other value is a
    [ValidationError]. *)
Definition validate_str (field : string) (v : json) : result string :=
  match v with
  | JStr s => Ok s
  | _ => Raise (ValidationError field)
  end.

(** [LogEvent.from_exception_thrown]. *)
Definition from_exception_thrown (event : ExceptionThrown) (target : option TargetInfo)
    : result LogEvent.t :=
  let exception_details := default no_exception_details (exceptionDetails event) in
  let exception := default no_remote_object (exception exception_details) in
  let text :=
    match description exception with
    | Some d => JStr d
    | None => default (JStr "Unknown exception") (value exception)
    end in
  let stack_trace := default no_stack_trace (stackTrace exception_details) in
  let call_frames := default [] (callFrames stack_trace) in
  let '(source, stack_str) :=
    match call_frames with
    | frame :: _ =>
      (Some {| sl_url := default "" (cf_url frame);
               sl_line := default 0 (lineNumber frame);
               sl_column := default 0 (columnNumber frame) |},
       Some (_format_stack_trace call_frames))
    | [] => (None, None)
    end in
  match _parse_cdp_timestamp (et_timestamp event) with
  | Raise e => Raise e
  | Ok ts =>
    match validate_str "text" text with
    | Ok text =>
      Ok (LogEvent.mk ts ERROR EXCEPTION text [] source stack_str target
            (executionContextId exception_details))
    | Raise e => Raise e
    end
  end.

(** The exception object and the call frames of a payload, with the
    defaults of the [.get] chain. *)
Definition exception_of (event : ExceptionThrown) : RemoteObject :=
  default no_remote_object
    (exception (default no_exception_details (exceptionDetails event))).

Definition call_frames_of (event : ExceptionThrown) : list CallFrame :=
  default []
    (callFrames
       (default no_stack_trace
          (stackTrace (default no_exception_details (exceptionDetails event))))).

(** The source location that a call frame supplies. *)
Definition location_of (frame : CallFrame) : SourceLocation :=
  {| sl_url := default "" (cf_url frame);
     sl_line := default 0 (lineNumber frame);
     sl_column := default 0 (columnNumber frame) |}.






Definition thrown_true : ExceptionThrown :=
  {| et_timestamp := None;
     exceptionDetails := Some
       {| exception := Some {| description := None; value := Some (JBool true) |};
          stackTrace := None;
          executionContextId := None |} |}.

(** *** Watch events *)

Module WatchEvent.
Record t := mk {
  ts : datetime;
  kind : WatchEventKind;
  url : string;
  method : option string;
  status : option Z;
  resource_type : option string;
  redirect_url : option string;
  element : option (list (string * json));
  target : option TargetInfo;
  request_id : option string;
  error_text : option string;
  mime_type : option string;
  frame_id : option string
}.
End WatchEvent.

(** [WatchEvent.from_request_will_be_sent]. *)
Definition from_request_will_be_sent (params : Params) (target : option TargetInfo)
    : result WatchEvent.t :=
  let request := default no_request (request params) in
  let redirect_response := redirectResponse params in
  let kind := if response_truthy redirect_response then REDIRECT else REQUEST in
  match _parse_cdp_timestamp (timestamp params) with
  | Raise e => Raise e
  | Ok ts =>
    Ok {| WatchEvent.ts := ts;
          WatchEvent.kind := kind;
          WatchEvent.url := default "" (rq_url request);
          WatchEvent.method := rq_method request;
          WatchEvent.status :=
            if response_truthy redirect_response then redirect_response ≫= rs_status
            else None;
          WatchEvent.resource_type := type params;
          WatchEvent.redirect_url :=
            if response_truthy redirect_response then rq_url request else None;
          WatchEvent.element := None;
          WatchEvent.target := target;
          WatchEvent.request_id := requestId params;
          WatchEvent.error_text := None;
          WatchEvent.mime_type := None;
          WatchEvent.frame_id := frameId params |}
  end.

(** [WatchEvent.from_response_received]. *)
Definition from_response_received (params : Params) (target : option TargetInfo)
    : result WatchEvent.t :=
  let response := default no_response (response params) in
  match _parse_cdp_timestamp (timestamp params) with
  | Raise e => Raise e
  | Ok ts =>
    Ok {| WatchEvent.ts := ts;
          WatchEvent.kind := RESPONSE;
          WatchEvent.url := default "" (rs_url response);
          WatchEvent.method := None;
          WatchEvent.status := rs_status response;
          WatchEvent.resource_type := type params;
          WatchEvent.redirect_url := None;
          WatchEvent.element := None;
          WatchEvent.target := target;
          WatchEvent.request_id := requestId params;
          WatchEvent.error_text := None;
          WatchEvent.mime_type := rs_mimeType response;
          WatchEvent.frame_id := frameId params |}
  end.

(** [WatchEvent.from_loading_failed]. *)
Definition from_loading_failed (params : Params) (target : option TargetInfo)
    : result WatchEvent.t :=
  match _parse_cdp_timestamp (timestamp params) with
  | Raise e => Raise e
  | Ok ts =>
    Ok {| WatchEvent.ts := ts;
          WatchEvent.kind := FAILED;
          WatchEvent.url := "";
          WatchEvent.method := None;
          WatchEvent.status := None;
          WatchEvent.resource_type := type params;
          WatchEvent.redirect_url := None;
          WatchEvent.element := None;
          WatchEvent.target := target;
          WatchEvent.request_id := requestId params;
          WatchEvent.error_text := errorText params;
          WatchEvent.mime_type := None;
          WatchEvent.frame_id := None |}
  end.

(** ** Network correlator ([CDPClient.stream_network]) *)

(** The keyword arguments of [stream_network]. *)
Record network_options := {
  include_requests : bool;
  include_responses : bool;
  include_failures : bool;
  resource_types : option (gset string);
  status_filter : option (gset Z)
}.

(** The default arguments: everything included, no filter. *)
Definition no_filters : network_options :=
  {| include_requests := true; include_responses := true; include_failures := true;
     resource_types := None; status_filter := None |}.

(** [allowed and x not in allowed] for a [set | None]: an absent or empty
    set filters nothing. *)
Definition filtered_out `{Countable A} (allowed : option (gset A)) (x : A) : bool :=
  match allowed with
  | Some s => bool_decide (s ≠ ∅) && bool_decide (x ∉ s)
  | None => false
  end.

(** An entry of [pending_requests]. *)
Record request_info := {
  info_url : string;
  info_method : string;
  info_type : string;
  info_frame_id : option string
}.

(** The body of the [async for] of [stream_network] on one event: the
    pending table as the body leaves it, and the events yielded or the
    exception that escapes the generator.  A request is recorded before its
    event is built, a failure pops its entry before its event is built, and
    a response pops its entry after its event was built and yielded. *)
Definition network_event (opts : network_options) (target_info : option TargetInfo)
    (pending_requests : gmap string request_info) (event : Event)
    : gmap string request_info * result (list WatchEvent.t) :=
  let method := default "" (method event) in
  let params := default no_params (params event) in
  if String.eqb method "Network.requestWillBeSent" then
    let request_id := default "" (requestId params) in
    let resource_type := default "" (type params) in
    if filtered_out (resource_types opts) resource_type then (pending_requests, Ok [])
    else
      let info :=
        {| info_url := default "" (rq_url (default no_request (request params)));
           info_method := default "GET" (rq_method (default no_request (request params)));
           info_type := resource_type;
           info_frame_id := frameId params |} in
      let pending_requests := <[request_id := info]> pending_requests in
      if include_requests opts then
        match from_request_will_be_sent params target_info with
        | Ok watch_event => (pending_requests, Ok [watch_event])
        | Raise e => (pending_requests, Raise e)
        end
      else (pending_requests, Ok [])
  else if String.eqb method "Network.responseReceived" then
    let request_id := default "" (requestId params) in
    let response := default no_response (response params) in
    let status := default 0 (rs_status response) in
    if filtered_out (status_filter opts) status then (pending_requests, Ok [])
    else
      let resource_type := default "" (type params) in
      if filtered_out (resource_types opts) resource_type then (pending_requests, Ok [])
      else if include_responses opts then
        match from_response_received params target_info with
        | Ok watch_event => (delete request_id pending_requests, Ok [watch_event])
        | Raise e => (pending_requests, Raise e)
        end
      else (delete request_id pending_requests, Ok [])
  else if String.eqb method "Network.loadingFailed" then
    let request_id := default "" (requestId params) in
    let request_info := pending_requests !! request_id in
    let pending_requests := delete request_id pending_requests in
    let resource_type := default "" (type params) in
    if filtered_out (resource_types opts) resource_type then (pending_requests, Ok [])
    else if include_failures opts then
      match from_loading_failed params target_info with
      | Ok watch_event =>
        (pending_requests,
         Ok [ {| WatchEvent.ts := WatchEvent.ts watch_event;
                 WatchEvent.kind := WatchEvent.kind watch_event;
                 WatchEvent.url := from_option info_url "" request_info;
                 WatchEvent.method := info_method <$> request_info;
                 WatchEvent.status := WatchEvent.status watch_event;
                 WatchEvent.resource_type := WatchEvent.resource_type watch_event;
                 WatchEvent.redirect_url := WatchEvent.redirect_url watch_event;
                 WatchEvent.element := WatchEvent.element watch_event;
                 WatchEvent.target := WatchEvent.target watch_event;
                 WatchEvent.request_id := WatchEvent.request_id watch_event;
                 WatchEvent.error_text := WatchEvent.error_text watch_event;
                 WatchEvent.mime_type := WatchEvent.mime_type watch_event;
                 WatchEvent.frame_id := request_info ≫= info_frame_id |} ])
      | Raise e => (pending_requests, Raise e)
      end
    else (pending_requests, Ok [])
  else (pending_requests, Ok []).

(** [stream_network] over the events that [stream_events] yields, from a
    given pending table: the watch events yielded, in order, the table when
    the generator ends, and the exception that ended it, if one did. *)
Fixpoint stream_network_from (opts : network_options) (target_info : option TargetInfo)
    (events : list Event) (pending_requests : gmap string request_info)
    : list WatchEvent.t * gmap string request_info * option exn :=
  match events with
  | [] => ([], pending_requests, None)
  | event :: rest =>
    match network_event opts target_info pending_requests event with
    | (pending_requests, Raise e) => ([], pending_requests, Some e)
    | (pending_requests, Ok yielded) =>
      let '(later, final, raised) :=
        stream_network_from opts target_info rest pending_requests in
      (yielded ++ later, final, raised)
    end
  end.

(** [stream_network]: the table starts empty. *)
Definition stream_network (opts : network_options) (target_info : option TargetInfo)
    (events : list Event)
    : list WatchEvent.t * gmap string request_info * option exn :=
  stream_network_from opts target_info events ∅.

(** The claim about correlation as the specification states it, at one
    event sequence ending with the response: a request event with url [U]
    is emitted, later a response event with status 404 and url [U], and the
    table no longer holds [R]. *)
Definition correlation_as_claimed (events : list Event) (R U : string) : Prop :=
  exists earlier between later req resp,
    (stream_network no_filters None events).1.1 =
      earlier ++ [req] ++ between ++ [resp] ++ later /\
    WatchEvent.kind req = REQUEST /\ WatchEvent.url req = U /\
    WatchEvent.kind resp = RESPONSE /\ WatchEvent.status resp = Some 404 /\
    WatchEvent.url resp = U /\
    (stream_network no_filters None events).1.2 !! R = None.

(** A request for [U] under id [R], and a response under id [R]. *)
Definition request_will_be_sent (R U : string) : Event :=
  {| method := Some "Network.requestWillBeSent";
     params := Some
       {| requestId := Some R; type := Some "Document";
          request := Some {| rq_url := Some U; rq_method := Some "GET" |};
          response := None; redirectResponse := None; frameId := Some "main";
          timestamp := Some 1; errorText := None |} |}.

Definition response_received (R : string) (status : Z) (url : string) : Event :=
  {| method := Some "Network.responseReceived";
     params := Some
       {| requestId := Some R; type := Some "Document"; request := None;
          response := Some {| rs_url := Some url; rs_status := Some status;
                              rs_mimeType := Some "text/html"; rs_other_keys := true |};
          redirectResponse := None; frameId := Some "main";
          timestamp := Some 2; errorText := None |} |}.

Definition loading_failed (p : Params) : Event :=
  {| method := Some "Network.loadingFailed"; params := Some p |}.

(** ** Frame resolver *)

(** [Page.Frame], as far as it is read. *)
Record Frame := {
  f_id : option string;
  f_url : option string
}.

Definition no_frame : Frame := Build_Frame None None.

(** [Page.FrameTree]: a frame and its child trees; an absent [childFrames]
    is the empty list, as [.get("childFrames", [])] makes it. *)
Inductive FrameTree :=
| mkFrameTree (frame : option Frame) (childFrames : list FrameTree).

Definition ft_frame (t : FrameTree) : option Frame :=
  match t with mkFrameTree frame _ => frame end.

(** [_collect_child_frames(frame_tree, result)]: appends to [result] and
    returns it. *)
Fixpoint _collect_child_frames (frame_tree : FrameTree) (result : list Frame)
    {struct frame_tree} : list Frame :=
  match frame_tree with
  | mkFrameTree _ children =>
    (fix loop (children : list FrameTree) (result : list Frame) : list Frame :=
       match children with
       | [] => result
       | child :: rest =>
         let child_frame := default no_frame (ft_frame child) in
         loop rest (_collect_child_frames child (result ++ [child_frame]))
       end) children result
  end.

(** [l[i]] for a Python list and an [int]: a negative index counts from the
    end, and an index outside both ranges is an [IndexError]. *)
Definition py_index {A} (l : list A) (i : Z) : result A :=
  let n := Z.of_nat (length l) in
  let j := if bool_decide (i < 0) then i + n else i in
  if bool_decide (0 ≤ j < n) then
    match l !! Z.to_nat j with
    | Some x => Ok x
    | None => Raise IndexError
    end
  else Raise IndexError.

(** [find_iframe_context], on the frame tree that [Page.getFrameTree]
    returned. *)
Definition find_iframe_context (frame_tree : FrameTree) (url_filter : option string)
    (index : Z) : result (option string) :=
  let iframe_frames := _collect_child_frames frame_tree [] in
  if truthy url_filter then
    let url_filter := default "" url_filter in
    match first_where (fun frame => contains url_filter (default "" (f_url frame)))
                      iframe_frames with
    | Some frame => Ok (f_id frame)
    | None => Ok None
    end
  else if bool_decide (index < Z.of_nat (length iframe_frames)) then
    match py_index iframe_frames index with
    | Ok frame => Ok (f_id frame)
    | Raise e => Raise e
    end
  else Ok None.

(** Depth-first flattening in the words of the specification: each child's
    frame, followed by the flattening of that child, child after child. *)
Fixpoint flatten_spec (t : FrameTree) : list Frame :=
  match t with
  | mkFrameTree _ children =>
    flat_map (fun child => default no_frame (ft_frame child) :: flatten_spec child) children
  end.



(** ** Further notions for the session *)

(** The message ids of the messages written to a connection, in the order
    they were written. *)
Definition sent_ids (ws : ClientConnection) : list Z :=
  omap (fun message =>
          match message with
          | JDict kvs =>
            match dict_get "id" kvs with
            | Some (JInt k) => Some k
            | _ => None
            end
          | _ => None
          end) (sent ws).

(** A list of integers that strictly increases and stays at most [bound]. *)
Fixpoint increasing_up_to (bound : Z) (l : list Z) : Prop :=
  match l with
  | [] => True
  | k :: rest =>
    k <= bound /\ increasing_up_to bound rest /\
    match rest with
    | [] => True
    | k' :: _ => k < k'
    end
  end.

(** The messages written to the connection all carry an integer id, and
    these ids increase strictly and stay at most the counter. *)
Definition sent_in_order (st : state) : Prop :=
  match _ws (self st) with
  | Some ws =>
    length (sent_ids ws) = length (sent ws) /\
    increasing_up_to (_message_id (self st)) (sent_ids ws)
  | None => True
  end.

(** The kinds of watch event that come from the network. *)
Definition network_kind (k : WatchEventKind) : bool :=
  match k with
  | REQUEST | REDIRECT | RESPONSE | FAILED => true
  | _ => false
  end.

(** ** Further functions of [log_event.py] and [cdp_client.py] *)

(** [mapping.get(key)] for a dict literal given by its items. *)
Fixpoint lookup_item {A} (key : string) (items : list (string * A)) : option A :=
  match items with
  | [] => None
  | (k, v) :: rest => if String.eqb k key then Some v else lookup_item key rest
  end.

(** [_map_console_type_to_level]. *)
Definition _map_console_type_to_level (console_type : string) : LogLevel :=
  let mapping :=
    [ ("log", INFO); ("info", INFO); ("debug", DEBUG); ("warn", WARN);
      ("warning", WARN); ("error", ERROR); ("assert", ERROR); ("trace", DEBUG);
      ("dir", INFO); ("dirxml", INFO); ("table", INFO); ("count", INFO);
      ("countReset", INFO); ("time", INFO); ("timeEnd", INFO); ("timeLog", INFO);
      ("group", INFO); ("groupCollapsed", INFO); ("groupEnd", INFO); ("clear", INFO) ] in
  default INFO (lookup_item console_type mapping).

(** [_map_log_level]. *)
Definition _map_log_level (level : string) : LogLevel :=
  let mapping :=
    [ ("verbose", DEBUG); ("info", INFO); ("warning", WARN); ("error", ERROR) ] in
  default INFO (lookup_item level mapping).

(** [Log.LogEntry], and the parameters of [Log.entryAdded]. *)
Record LogEntry := {
  le_level : option string;
  le_text : option string;
  le_url : option string;
  le_lineNumber : option Z;
  le_timestamp : option Z;
  le_stackTrace : option StackTrace
}.

Record EntryAdded := {
  entry : option LogEntry
}.

Definition no_log_entry : LogEntry := Build_LogEntry None None None None None None.

(** [LogEvent.from_log_entry_added]. *)
Definition from_log_entry_added (event : EntryAdded) (target : option TargetInfo)
    : result LogEvent.t :=
  let entry := default no_log_entry (entry event) in
  let level_str := default "info" (le_level entry) in
  let level := _map_log_level level_str in
  let text := default "" (le_text entry) in
  let url := default "" (le_url entry) in
  let line := default 0 (le_lineNumber entry) in
  let source :=
    match url with
    | "" => None
    | _ => Some {| sl_url := url; sl_line := line; sl_column := 0 |}
    end in
  match _parse_cdp_timestamp (le_timestamp entry) with
  | Raise e => Raise e
  | Ok ts =>
    let stack_trace := default no_stack_trace (le_stackTrace entry) in
    let call_frames := default [] (callFrames stack_trace) in
    let stack_str :=
      match call_frames with
      | [] => None
      | _ => Some (_format_stack_trace call_frames)
      end in
    Ok (LogEvent.mk ts level BROWSER_LOG text [] source stack_str target None)
  end.

(** [WatchEvent.from_click_console] and [WatchEvent.from_message_console]. *)
Definition from_click_console (log_event : LogEvent.t) : option WatchEvent.t :=
  if String.prefix "[DEVLOG_CLICK]" (LogEvent.text log_event) then
    Some {| WatchEvent.ts := LogEvent.ts log_event;
            WatchEvent.kind := CLICK;
            WatchEvent.url := "";
            WatchEvent.method := None;
            WatchEvent.status := None;
            WatchEvent.resource_type := None;
            WatchEvent.redirect_url := None;
            WatchEvent.element := Some [("raw", JStr (LogEvent.text log_event))];
            WatchEvent.target := LogEvent.target log_event;
            WatchEvent.request_id := None;
            WatchEvent.error_text := None;
            WatchEvent.mime_type := None;
            WatchEvent.frame_id := None |}
  else None.

Definition from_message_console (log_event : LogEvent.t) : option WatchEvent.t :=
  if String.prefix "[DEVLOG_MESSAGE]" (LogEvent.text log_event) then
    Some {| WatchEvent.ts := LogEvent.ts log_event;
            WatchEvent.kind := MESSAGE;
            WatchEvent.url := "";
            WatchEvent.method := None;
            WatchEvent.status := None;
            WatchEvent.resource_type := None;
            WatchEvent.redirect_url := None;
            WatchEvent.element := Some [("raw", JStr (LogEvent.text log_event))];
            WatchEvent.target := LogEvent.target log_event;
            WatchEvent.request_id := None;
            WatchEvent.error_text := None;
            WatchEvent.mime_type := None;
            WatchEvent.frame_id := None |}
  else None.

(** [s.replace(old, new)] for a one-character [old]. *)
Fixpoint replace_char (old : Ascii.ascii) (new : string) (s : string) : string :=
  match s with
  | EmptyString => EmptyString
  | String c rest =>
    if Ascii.eqb c old then new +:+ replace_char old new rest
    else String c (replace_char old new rest)
  end.

(** [c in s] for a character. *)
Fixpoint occurs (c : Ascii.ascii) (s : string) : bool :=
  match s with
  | EmptyString => false
  | String c' rest => Ascii.eqb c' c || occurs c rest
  end.

Definition tab : Ascii.ascii := Ascii.ascii_of_nat 9.
Definition line_feed : Ascii.ascii := Ascii.ascii_of_nat 10.
Definition backslash : Ascii.ascii := Ascii.ascii_of_nat 92.

(** [level.value.upper()]. *)
Definition level_upper (level : LogLevel) : string :=
  match level with
  | DEBUG => "DEBUG"
  | INFO => "INFO"
  | WARN => "WARN"
  | ERROR => "ERROR"
  end.

Section Rendering.
(** [ts.strftime("%H:%M:%S.%f")[:-3]], the clock time to the millisecond. *)
Variable strftime_ms : datetime -> string.

(** [LogEvent.to_tsv]. *)
Definition to_tsv (ev : LogEvent.t) : string :=
  let ts_str := strftime_ms (LogEvent.ts ev) in
  let level_str := level_upper (LogEvent.level ev) in
  let text_escaped :=
    replace_char line_feed (String backslash "n")
      (replace_char tab " " (LogEvent.text ev)) in
  ts_str +:+ String tab EmptyString +:+ level_str +:+ String tab EmptyString +:+
  text_escaped.
End Rendering.

(** An item of the [/json/list] response. *)
Record TargetJson := {
  tj_id : option string;
  tj_title : option string;
  tj_url : option string;
  tj_type : option string;
  tj_webSocketDebuggerUrl : option string
}.

(** The outcome of code that subscripts a dict: a value, or the [KeyError]
    of the missing key. *)
Inductive keyed (A : Type) :=
| Found (a : A)
| KeyError (key : string).
Arguments Found {A} a.
Arguments KeyError {A} key.

(** [CDPTarget.from_json]: the arguments are evaluated in order, so a
    missing id is reported before a missing websocket url. *)
Definition from_json (data : TargetJson) : keyed CDPTarget.t :=
  match tj_id data with
  | None => KeyError "id"
  | Some id =>
    match tj_webSocketDebuggerUrl data with
    | None => KeyError "webSocketDebuggerUrl"
    | Some ws =>
      Found (CDPTarget.mk id (default "" (tj_title data)) (default "" (tj_url data))
               (default "page" (tj_type data)) ws)
    end
  end.

(** The list comprehension of [list_targets] over the decoded response. *)
Fixpoint targets_from_json (data : list TargetJson) : keyed (list CDPTarget.t) :=
  match data with
  | [] => Found []
  | item :: rest =>
    match from_json item with
    | KeyError key => KeyError key
    | Found t =>
      match targets_from_json rest with
      | KeyError key => KeyError key
      | Found ts => Found (t :: ts)
      end
    end
  end.

(** The number of frames below the root of a frame tree. *)
Fixpoint descendants (t : FrameTree) : nat :=
  match t with
  | mkFrameTree _ children =>
    list_sum (map (fun child => S (descendants child)) children)
  end.

(** ** Console calls, [stream_logs] and [stream_watch] *)

(** [Runtime.RemoteObject] as a console argument, with its preview kept as
    the JSON value it is, and the parameters of [Runtime.consoleAPICalled]. *)
Record ConsoleArg := {
  a_type : option string;
  a_subtype : option string;
  a_value : option json;
  a_description : option string;
  a_preview : option json
}.

Record ConsoleCalled := {
  cc_type : option string;
  cc_args : option (list ConsoleArg);
  cc_stackTrace : option StackTrace;
  cc_timestamp : option Z;
  cc_executionContextId : option Z
}.

Definition no_console_called : ConsoleCalled :=
  Build_ConsoleCalled None None None None None.

(** The [for] loop of [_extract_arg_values], appending to [values]; Python's
    [None] is the JSON null. *)
Fixpoint _extract_arg_values_loop (args : list ConsoleArg) (values : list json)
    : list json :=
  match args with
  | [] => values
  | arg :: rest =>
    let obj_type := default "" (a_type arg) in
    let subtype := default "" (a_subtype arg) in
    let v :=
      if String.eqb obj_type "string" || String.eqb obj_type "number" ||
         String.eqb obj_type "boolean"
      then default JNull (a_value arg)
      else if String.eqb obj_type "undefined" || String.eqb subtype "null"
      then JNull
      else JStr (default ("[" +:+ obj_type +:+ "]") (a_description arg)) in
    _extract_arg_values_loop rest (values ++ [v])
  end.

Definition _extract_arg_values (args : list ConsoleArg) : list json :=
  _extract_arg_values_loop args [].

(** [Page.Frame] as [Page.frameNavigated] carries it. *)
Record NavigatedFrame := {
  nf_url : option string;
  nf_parentId : option string
}.

(** [WatchEvent.from_frame_navigated], on the frame of the parameters. *)
Definition from_frame_navigated (frame : option NavigatedFrame)
    (target : option TargetInfo) : WatchEvent.t :=
  {| WatchEvent.ts := utc_now;
     WatchEvent.kind := NAVIGATION;
     WatchEvent.url := default "" (frame ≫= nf_url);
     WatchEvent.method := None;
     WatchEvent.status := None;
     WatchEvent.resource_type := None;
     WatchEvent.redirect_url := None;
     WatchEvent.element := None;
     WatchEvent.target := target;
     WatchEvent.request_id := None;
     WatchEvent.error_text := None;
     WatchEvent.mime_type := None;
     WatchEvent.frame_id := None |}.

(** The parameters of an event as [stream_logs] reads them: the keys each
    of the three constructors reads. *)
Record LogParams := {
  lp_console : ConsoleCalled;
  lp_exception : ExceptionThrown;
  lp_entry : EntryAdded
}.

Record LogSourceEvent := {
  ls_method : option string;
  ls_params : option LogParams
}.

Definition no_log_params : LogParams :=
  {| lp_console := no_console_called;
     lp_exception := {| et_timestamp := None; exceptionDetails := None |};
     lp_entry := {| entry := None |} |}.

(** The parameters of an event as [stream_watch] reads them. *)
Record WatchParams := {
  wp_console : ConsoleCalled;
  wp_network : Params;
  wp_frame : option NavigatedFrame
}.

Record WatchSourceEvent := {
  ws_method : option string;
  ws_params : option WatchParams
}.

Definition no_watch_params : WatchParams :=
  {| wp_console := no_console_called; wp_network := no_params; wp_frame := None |}.

(** [[x] if x else []] for an optional event. *)
Definition yield_if {A} (o : option A) : list A :=
  match o with
  | Some x => [x]
  | None => []
  end.

Section Console.
(** [_render_console_args] is a parameter: it applies Python's [str] to
    values of any shape, which is not modelled.  What is stated below holds
    for every renderer, so for the one of the source, which returns the
    text or raises. *)
Variable _render_console_args : list ConsoleArg -> result string.

(** [LogEvent.from_console_api_called]. *)
Definition from_console_api_called (event : ConsoleCalled) (target : option TargetInfo)
    : result LogEvent.t :=
  let console_type := default "log" (cc_type event) in
  let level := _map_console_type_to_level console_type in
  let args := default [] (cc_args event) in
  match _render_console_args args with
  | Raise e => Raise e
  | Ok text =>
    let stack_trace := default no_stack_trace (cc_stackTrace event) in
    let call_frames := default [] (callFrames stack_trace) in
    let source :=
      match call_frames with
      | frame :: _ =>
        Some {| sl_url := default "" (cf_url frame);
                sl_line := default 0 (lineNumber frame);
                sl_column := default 0 (columnNumber frame) |}
      | [] => None
      end in
    match _parse_cdp_timestamp (cc_timestamp event) with
    | Raise e => Raise e
    | Ok ts =>
      Ok (LogEvent.mk ts level CONSOLE text (_extract_arg_values args) source None target
            (cc_executionContextId event))
    end
  end.

(** The body of the [async for] of [stream_logs] on one event: the log
    events yielded, or the exception that escapes the generator. *)
Definition stream_logs_event (target_info : option TargetInfo) (event : LogSourceEvent)
    : result (list LogEvent.t) :=
  let method := default "" (ls_method event) in
  let params := default no_log_params (ls_params event) in
  if String.eqb method "Runtime.consoleAPICalled" then
    match from_console_api_called (lp_console params) target_info with
    | Ok log_event => Ok [log_event]
    | Raise e => Raise e
    end
  else if String.eqb method "Runtime.exceptionThrown" then
    match from_exception_thrown (lp_exception params) target_info with
    | Ok log_event => Ok [log_event]
    | Raise e => Raise e
    end
  else if String.eqb method "Log.entryAdded" then
    match from_log_entry_added (lp_entry params) target_info with
    | Ok log_event => Ok [log_event]
    | Raise e => Raise e
    end
  else Ok [].

(** [stream_logs] over the events that [stream_events] yields: the log
    events yielded, in order, and the exception that ended the generator,
    if one did. *)
Fixpoint stream_logs (target_info : option TargetInfo) (events : list LogSourceEvent)
    : list LogEvent.t * option exn :=
  match events with
  | [] => ([], None)
  | event :: rest =>
    match stream_logs_event target_info event with
    | Raise e => ([], Some e)
    | Ok yielded =>
      let (later, raised) := stream_logs target_info rest in
      (yielded ++ later, raised)
    end
  end.

(** The body of the [async for] of [stream_watch] on one event. *)
Definition stream_watch_event (clicks network document_only : bool)
    (target_info : option TargetInfo) (event : WatchSourceEvent)
    : result (list WatchEvent.t) :=
  let method := default "" (ws_method event) in
  let params := default no_watch_params (ws_params event) in
  match
    if String.eqb method "Runtime.consoleAPICalled" then
      match from_console_api_called (wp_console params) target_info with
      | Ok log_event =>
        Ok ((if clicks then yield_if (from_click_console log_event) else []) ++
            yield_if (from_message_console log_event))
      | Raise e => Raise e
      end
    else Ok []
  with
  | Raise e => Raise e
  | Ok from_console =>
    let is_request := network && String.eqb method "Network.requestWillBeSent" in
    let resource_type := default "" (type (wp_network params)) in
    if is_request && document_only && negb (String.eqb resource_type "Document")
    then Ok from_console
    else
      match
        if is_request then
          match from_request_will_be_sent (wp_network params) target_info with
          | Ok watch_event => Ok [watch_event]
          | Raise e => Raise e
          end
        else Ok []
      with
      | Raise e => Raise e
      | Ok from_request =>
        let is_navigation := network && String.eqb method "Page.frameNavigated" in
        if is_navigation && truthy (wp_frame params ≫= nf_parentId)
        then Ok (from_console ++ from_request)
        else
          let from_navigation :=
            if is_navigation then [from_frame_navigated (wp_frame params) target_info]
            else [] in
          Ok (from_console ++ from_request ++ from_navigation)
      end
  end.

(** [stream_watch] over the events that [stream_events] yields. *)
Fixpoint stream_watch (clicks network document_only : bool)
    (target_info : option TargetInfo) (events : list WatchSourceEvent)
    : list WatchEvent.t * option exn :=
  match events with
  | [] => ([], None)
  | event :: rest =>
    match stream_watch_event clicks network document_only target_info event with
    | Raise e => ([], Some e)
    | Ok yielded =>
      let (later, raised) :=
        stream_watch clicks network document_only target_info rest in
      (yielded ++ later, raised)
    end
  end.
End Console.

(** The value that [_extract_arg_values] stores for one argument. *)
Definition arg_value (arg : ConsoleArg) : json :=
  let obj_type := default "" (a_type arg) in
  if String.eqb obj_type "string" || String.eqb obj_type "number" ||
     String.eqb obj_type "boolean"
  then default JNull (a_value arg)
  else if String.eqb obj_type "undefined" || String.eqb (default "" (a_subtype arg)) "null"
  then JNull
  else JStr (default ("[" +:+ obj_type +:+ "]") (a_description arg)).

(** ** Further notions for the claims *)

(** A protocol timestamp that [_parse_cdp_timestamp] accepts: an absent
    one, or an instant that a [datetime] can hold. *)
Definition in_datetime_range (timestamp : option Z) : Prop :=
  forall t, timestamp = Some t -> MIN_TIMESTAMP ≤ t ≤ MAX_TIMESTAMP.

(** The [datetime] of an accepted timestamp. *)
Definition instant (timestamp : option Z) : datetime :=
  from_option utc_fromtimestamp_ms utc_now timestamp.

(** The same for the parameters of a network event. *)
Definition event_in_range (event : Event) : Prop :=
  in_datetime_range (timestamp (default no_params (params event))).


(** The claim about a failure without a request as the specification states
    it, at one failure event: the correlator does not raise and emits one
    failed event with empty url and no method, carrying the error text. *)
Definition failure_as_claimed (p : Params) : Prop :=
  exists failed,
    stream_network no_filters None [loading_failed p] = ([failed], ∅, None) /\
    WatchEvent.kind failed = FAILED /\ WatchEvent.url failed = "" /\
    WatchEvent.method failed = None /\ WatchEvent.error_text failed = errorText p.

(** A failure of request [R] stamped with the instant [t]. *)
Definition failed_at (R : string) (t : Z) : Params :=
  {| requestId := Some R; type := Some "XHR"; request := None; response := None;
     redirectResponse := None; frameId := None; timestamp := Some t;
     errorText := Some "net::ERR_FAILED" |}.

(** A session with no open channel, as the specification has it: no channel
    was set, or the one that is set has been closed by the peer. *)
Definition no_open_channel (st : state) : Prop :=
  match _ws (self st) with
  | None => True
  | Some ws => closed ws = true
  end.

(** The claim about a call on a session that is not connected as the
    specification states it, at one state: the call fails at once with the
    connection error and leaves the state as it was. *)
Definition not_connected_as_claimed (st : state) : Prop :=
  send_command "Page.enable" None st =
    (st, SendRaised (CDPConnectionError "Not connected to any target")).

(** *** Properties of the target directory *)

Lemma first_where_filter {A} (p : A -> bool) (l : list A) :
  first_where p l = head (List.filter p l).
Proof.
  induction l as [|x l IH]; simpl; [reflexivity|].
  destruct (p x); [reflexivity | exact IH].
Qed.

Lemma filter_filter_andb {A} (p q : A -> bool) (l : list A) :
  List.filter q (List.filter p l) = List.filter (fun x => p x && q x) l.
Proof.
  induction l as [|x l IH]; simpl; [reflexivity|].
  destruct (p x); simpl; [destruct (q x); simpl; congruence | exact IH].
Qed.

Lemma truthy_given (o : option string) :
  truthy o = true /\ given o = Some (default "" o) \/
  truthy o = false /\ given o = None.
Proof. destruct o as [[|c s]|]; simpl; auto. Qed.


(** C4. [find_target] resolves in the order of the specification: an exact
    id match over all targets; else a URL-substring match over the page-type
    targets, first match wins; else a title-substring match likewise; else
    the first page-type target, falling back to the first target; a
    selector that finds nothing, and an empty directory, fail with
    [TargetNotFoundError].  On the example directory, [url_filter] "foo"
    resolves to target "a" and "zzz" raises [TargetNotFoundError]. *)
Theorem find_target_resolution_order :
  (forall targets target_id url_filter title_filter,
     resolves_to (find_target targets target_id url_filter title_filter)
                 (resolve_spec targets (selector_of target_id url_filter title_filter))) /\
  (forall target_id url_filter title_filter,
     exists msg,
       find_target [] target_id url_filter title_filter = Raise (TargetNotFoundError msg)) /\
  (exists t, find_target dir_example None (Some "foo") None = Ok t /\ CDPTarget.id t = "a") /\
  (exists msg, find_target dir_example None (Some "zzz") None = Raise (TargetNotFoundError msg)).
Proof.
  split; [|split; [|split]].
  - intros targets target_id url_filter title_filter.
    destruct targets as [|first rest]; [by destruct (selector_of _ _ _)|].
    unfold find_target, selector_of.
    destruct (truthy_given target_id) as [[-> ->]|[-> ->]].
    { rewrite first_where_filter. simpl resolve_spec.
      by destruct (head _). }
    destruct (truthy_given url_filter) as [[-> ->]|[-> ->]].
    { rewrite first_where_filter, filter_filter_andb. simpl resolve_spec.
      by destruct (head _). }
    destruct (truthy_given title_filter) as [[-> ->]|[-> ->]].
    { rewrite first_where_filter, filter_filter_andb. simpl resolve_spec.
      by destruct (head _). }
    unfold resolve_spec.
    by destruct (List.filter is_page (first :: rest)).
  - intros. eexists. reflexivity.
  - eexists. split; reflexivity.
  - eexists. reflexivity.
Qed.

(** C10. An empty-string selector is treated as absent: replacing [""] by
    [None] in any of the three selectors does not change the result, and on
    a non-empty directory a call whose selectors are all empty or absent
    resolves to the first page-type target, else to the first target. *)
Theorem find_target_empty_selector_is_absent :
  (forall targets target_id url_filter title_filter,
     find_target targets (Some "") url_filter title_filter =
       find_target targets None url_filter title_filter /\
     find_target targets target_id (Some "") title_filter =
       find_target targets target_id None title_filter /\
     find_target targets target_id url_filter (Some "") =
       find_target targets target_id url_filter None) /\
  (forall first rest b1 b2 b3,
     find_target (first :: rest) (blank b1) (blank b2) (blank b3) =
       Ok (match List.filter is_page (first :: rest) with
           | page :: _ => page
           | [] => first
           end)).
Proof.
  split.
  - intros targets target_id url_filter title_filter.
    destruct targets as [|first rest]; [done|].
    unfold find_target. repeat split; reflexivity.
  - intros first rest [] [] []; unfold find_target, blank, truthy;
      by destruct (List.filter is_page (first :: rest)).
Qed.

(** *** Properties of the frame resolver *)

(** Induction on a frame tree, with the property for every child. *)
Lemma FrameTree_children_ind (P : FrameTree -> Prop) :
  (forall frame children, Forall P children -> P (mkFrameTree frame children)) ->
  forall t, P t.
Proof.
  intros step. fix IH 1. intros [frame children]. apply step.
  induction children as [|child rest IHrest]; constructor; [apply IH | exact IHrest].
Qed.

Lemma collect_child_frames_flatten (t : FrameTree) :
  forall result, _collect_child_frames t result = result ++ flatten_spec t.
Proof.
  induction t as [frame children IH] using FrameTree_children_ind.
  simpl. induction IH as [|child rest Hchild _ IHrest]; intros result; simpl.
  - by rewrite app_nil_r.
  - rewrite Hchild, IHrest. by rewrite <- !app_assoc.
Qed.

Example str_of_int_examples :
  str_of_int 0 = "0" /\ str_of_int 10 = "10" /\ str_of_int (-5) = "-5".
Proof. by vm_compute. Qed.





(** *** Properties of the log normaliser *)



Lemma parse_cdp_timestamp_in_range (timestamp : option Z) :
  in_datetime_range timestamp ->
  _parse_cdp_timestamp timestamp = Ok (instant timestamp).
Proof.
  intros Hrange. destruct timestamp as [t|]; [|done].
  unfold _parse_cdp_timestamp. by rewrite bool_decide_eq_true_2 by (by apply Hrange).
Qed.

Lemma parse_cdp_timestamp_out_of_range (timestamp : option Z) :
  ~ in_datetime_range timestamp ->
  _parse_cdp_timestamp timestamp = Raise TimestampError.
Proof.
  intros Hout. destruct timestamp as [t|]; [|by destruct Hout].
  unfold _parse_cdp_timestamp. case_bool_decide as Hrange; [|done].
  destruct Hout. by intros ? [= <-].
Qed.

Lemma in_datetime_range_dec (timestamp : option Z) :
  in_datetime_range timestamp \/ ~ in_datetime_range timestamp.
Proof.
  destruct timestamp as [t|]; [|by left].
  destruct (decide (MIN_TIMESTAMP ≤ t ≤ MAX_TIMESTAMP)) as [Hrange|Hout].
  - left. by intros ? [= <-].
  - right. intros Hrange. apply Hout. by apply Hrange.
Qed.




(** *** Properties of the network correlator *)

Lemma stream_network_from_app opts ti (events later : list Event)
    (pending : gmap string request_info) :
  stream_network_from opts ti (events ++ later) pending =
    match stream_network_from opts ti events pending with
    | (ys, table, Some e) => (ys, table, Some e)
    | (ys, table, None) =>
      let '(ys', final, raised) := stream_network_from opts ti later table in
      (ys ++ ys', final, raised)
    end.
Proof.
  revert pending. induction events as [|event rest IH]; intros pending; simpl.
  - by destruct (stream_network_from opts ti later pending) as [[ys final] raised].
  - destruct (network_event opts ti pending event) as [pending' [yielded|e]]; [|done].
    rewrite IH.
    destruct (stream_network_from opts ti rest pending') as [[ys table] [e|]]; [done|].
    destruct (stream_network_from opts ti later table) as [[ys' final] raised].
    by rewrite app_assoc.
Qed.

Lemma stream_network_from_one opts ti (event : Event)
    (pending : gmap string request_info) :
  stream_network_from opts ti [event] pending =
    match network_event opts ti pending event with
    | (table, Ok ys) => (ys, table, None)
    | (table, Raise e) => ([], table, Some e)
    end.
Proof.
  simpl. destruct (network_event opts ti pending event) as [pending' [yielded|e]]; [|done].
  by rewrite app_nil_r.
Qed.

Lemma network_event_in_range opts ti (pending : gmap string request_info)
    (event : Event) :
  event_in_range event -> exists ys, (network_event opts ti pending event).2 = Ok ys.
Proof.
  unfold event_in_range, network_event. intros Hrange.
  unfold from_request_will_be_sent, from_response_received, from_loading_failed.
  rewrite (parse_cdp_timestamp_in_range _ Hrange).
  repeat match goal with
         | |- context [if ?b then _ else _] => destruct b
         end; eauto.
Qed.

Lemma stream_network_from_in_range opts ti (events : list Event) :
  Forall event_in_range events ->
  forall pending, (stream_network_from opts ti events pending).2 = None.
Proof.
  induction 1 as [|event rest Hevent _ IH]; intros pending; simpl; [done|].
  destruct (network_event_in_range opts ti pending event Hevent) as [ys Hys].
  destruct (network_event opts ti pending event) as [pending' r]. simpl in Hys. subst r.
  specialize (IH pending').
  by destruct (stream_network_from opts ti rest pending') as [[later final] raised].
Qed.

Lemma network_event_request ti (pending : gmap string request_info) (p : Params) :
  in_datetime_range (timestamp p) ->
  exists info req,
    from_request_will_be_sent p ti = Ok req /\
    network_event no_filters ti pending
      {| method := Some "Network.requestWillBeSent"; params := Some p |} =
    (<[default "" (requestId p) := info]> pending, Ok [req]).
Proof.
  intros Hrange. unfold network_event, from_request_will_be_sent.
  cbn [method params from_option id String.eqb Ascii.eqb Bool.eqb].
  rewrite (parse_cdp_timestamp_in_range _ Hrange).
  eexists _, _. split; reflexivity.
Qed.

Lemma network_event_response ti (pending : gmap string request_info) (p : Params) :
  in_datetime_range (timestamp p) ->
  exists resp,
    from_response_received p ti = Ok resp /\
    network_event no_filters ti pending
      {| method := Some "Network.responseReceived"; params := Some p |} =
    (delete (default "" (requestId p)) pending, Ok [resp]).
Proof.
  intros Hrange. unfold network_event, from_response_received.
  cbn [method params from_option id String.eqb Ascii.eqb Bool.eqb].
  rewrite (parse_cdp_timestamp_in_range _ Hrange).
  eexists. split; reflexivity.
Qed.

(** C3, as stated, fails: the response event takes its url from the
    response payload, not from the pending request.  A request for
    [http://x/a] answered under the same id by a 404 response that names
    [http://x/b] yields a response event with url [http://x/b]. *)
Lemma correlation_not_as_claimed :
  ~ correlation_as_claimed
      [request_will_be_sent "R" "http://x/a"; response_received "R" 404 "http://x/b"]
      "R" "http://x/a" /\
  map (fun e => (WatchEvent.kind e, WatchEvent.url e, WatchEvent.status e))
      (stream_network no_filters None
         [request_will_be_sent "R" "http://x/a";
          response_received "R" 404 "http://x/b"]).1.1 =
    [(REQUEST, "http://x/a", None); (RESPONSE, "http://x/b", Some 404)].
Proof.
  split; [|vm_compute; reflexivity].
  intros (earlier & between & later & req & resp & Hyield & _ & _ & Hkind & _ & Hurl & _).
  assert (Hin : resp ∈ (stream_network no_filters None
            [request_will_be_sent "R" "http://x/a";
             response_received "R" 404 "http://x/b"]).1.1).
  { rewrite Hyield. rewrite !elem_of_app, !list_elem_of_singleton. tauto. }
  vm_compute in Hin.
  apply elem_of_cons in Hin as [-> | Hin]; [discriminate Hkind|].
  apply elem_of_cons in Hin as [-> | Hin]; [discriminate Hurl|].
  by apply elem_of_nil in Hin.
Qed.

(** C3, amended.  With no active filters and every timestamp of the
    sequence absent or an instant that a [datetime] can hold, a
    [Network.requestWillBeSent] with requestId [R] and url [U] followed
    later by a [Network.responseReceived] with requestId [R] and status 404
    makes the correlator emit a request event with url [U] (of kind
    redirect when the observation carries a non-empty redirect response)
    and later a response event with status 404 whose url is the url of the
    response payload, empty when it has none; once the response is handled
    the pending table holds no entry for [R], and the correlator has not
    raised. *)
Theorem stream_network_correlates_response (ti : option TargetInfo)
    (earlier between later : list Event) (p_req p_resp : Params) (R U : string) :
  Forall event_in_range (earlier ++ between) ->
  in_datetime_range (timestamp p_req) -> in_datetime_range (timestamp p_resp) ->
  requestId p_req = Some R -> request p_req ≫= rq_url = Some U ->
  requestId p_resp = Some R -> response p_resp ≫= rs_status = Some 404 ->
  let events :=
    earlier ++ [{| method := Some "Network.requestWillBeSent"; params := Some p_req |}] ++
    between ++ [{| method := Some "Network.responseReceived"; params := Some p_resp |}] in
  exists req resp,
    from_request_will_be_sent p_req ti = Ok req /\
    from_response_received p_resp ti = Ok resp /\
    (exists y_between y_later,
       (stream_network no_filters ti (events ++ later)).1.1 =
         (stream_network no_filters ti earlier).1.1 ++ [req] ++ y_between ++ [resp] ++
         y_later) /\
    WatchEvent.url req = U /\
    WatchEvent.kind req =
      (if response_truthy (redirectResponse p_req) then REDIRECT else REQUEST) /\
    WatchEvent.kind resp = RESPONSE /\
    WatchEvent.status resp = Some 404 /\
    WatchEvent.url resp = default "" (response p_resp ≫= rs_url) /\
    (stream_network no_filters ti events).1.2 !! R = None /\
    (stream_network no_filters ti events).2 = None.
Proof.
  intros [Hearlier Hbetween]%Forall_app Hreq Hresp HR HU HR' Hstatus events.
  set (table := (stream_network_from no_filters ti earlier ∅).1.2).
  destruct (network_event_request ti table p_req Hreq) as (info & req & Hmk_req & Hstep_req).
  pose proof (stream_network_from_in_range no_filters ti earlier Hearlier ∅) as Hno_raise.
  pose proof (stream_network_from_in_range no_filters ti between Hbetween
                (<[default "" (requestId p_req) := info]> table)) as Hno_raise'.
  destruct (stream_network_from no_filters ti between
              (<[default "" (requestId p_req) := info]> table))
    as [[y_between table'] raised'] eqn:Hbetween_run.
  simpl in Hno_raise'. subst raised'.
  destruct (network_event_response ti table' p_resp Hresp) as (resp & Hmk_resp & Hstep_resp).
  assert (Hrun : stream_network no_filters ti events =
            ((stream_network no_filters ti earlier).1.1 ++ [req] ++ y_between ++ [resp],
             delete (default "" (requestId p_resp)) table', None)).
  { unfold stream_network, events.
    rewrite stream_network_from_app.
    destruct (stream_network_from no_filters ti earlier ∅) as [[y_earlier t] raised].
    simpl in Hno_raise. subst raised. subst table. cbn [fst snd] in *.
    change (?e :: between ++ ?l) with ([e] ++ between ++ l).
    rewrite stream_network_from_app, stream_network_from_one, Hstep_req.
    rewrite stream_network_from_app, Hbetween_run, stream_network_from_one, Hstep_resp.
    reflexivity. }
  exists req, resp. split; [exact Hmk_req|]. split; [exact Hmk_resp|].
  unfold from_request_will_be_sent in Hmk_req.
  unfold from_response_received in Hmk_resp.
  rewrite (parse_cdp_timestamp_in_range _ Hreq) in Hmk_req.
  rewrite (parse_cdp_timestamp_in_range _ Hresp) in Hmk_resp.
  injection Hmk_req as <-. injection Hmk_resp as <-.
  split; [|split; [|split; [|split; [|split; [|split; [|split]]]]]].
  - unfold stream_network in *. rewrite stream_network_from_app, Hrun.
    destruct (stream_network_from no_filters ti later _) as [[y_later final] raised].
    cbn [fst snd]. rewrite <- !app_assoc. by eexists _, _.
  - cbn [WatchEvent.url].
    destruct (request p_req) as [rq|]; [|discriminate HU]. simpl in *. by rewrite HU.
  - reflexivity.
  - reflexivity.
  - cbn [WatchEvent.status].
    destruct (response p_resp) as [rs|]; [|discriminate Hstatus]. simpl in *. exact Hstatus.
  - cbn [WatchEvent.url]. by destruct (response p_resp).
  - rewrite Hrun. cbn [fst snd]. rewrite HR'. apply lookup_delete_eq.
  - by rewrite Hrun.
Qed.

Lemma stream_network_correlates_response_witness :
  (stream_network no_filters None
     ([] ++ [request_will_be_sent "R" "http://x/a"] ++ [] ++
      [response_received "R" 404 "http://x/b"])).1.2 !! "R" = None.
Proof.
  destruct (stream_network_correlates_response None [] [] []
       {| requestId := Some "R"; type := Some "Document";
          request := Some {| rq_url := Some "http://x/a"; rq_method := Some "GET" |};
          response := None; redirectResponse := None; frameId := Some "main";
          timestamp := Some 1; errorText := None |}
       {| requestId := Some "R"; type := Some "Document"; request := None;
          response := Some {| rs_url := Some "http://x/b"; rs_status := Some 404;
                              rs_mimeType := Some "text/html"; rs_other_keys := true |};
          redirectResponse := None; frameId := Some "main";
          timestamp := Some 2; errorText := None |}
       "R" "http://x/a")
    as (req & resp & _ & _ & _ & _ & _ & _ & _ & _ & Htable & _).
  - constructor.
  - intros t [= <-]. by vm_compute.
  - intros t [= <-]. by vm_compute.
  - reflexivity.
  - reflexivity.
  - reflexivity.
  - reflexivity.
  - exact Htable.
Defined.

(** C6, as stated, fails: a failure whose timestamp is past the year 9999
    makes the correlator raise, out of [from_loading_failed], instead of
    emitting a failed event. *)
Lemma stream_network_failure_not_as_claimed :
  ~ failure_as_claimed (failed_at "R" (2 ^ 63)) /\
  stream_network no_filters None [loading_failed (failed_at "R" (2 ^ 63))] =
    ([], ∅, Some TimestampError).
Proof.
  split; [|by vm_compute].
  intros (failed & Hrun & _). vm_compute in Hrun. discriminate Hrun.
Qed.

(** C6, amended.  With no active filters, a [Network.loadingFailed] whose
    timestamp is absent or an instant that a [datetime] can hold, and whose
    requestId has no entry in the pending table, does not make the
    correlator raise: the table lookup falls back to the empty entry, and
    the correlator emits exactly one failed event, with empty url, no
    method and no frame id, carrying the failure's error text; the table is
    left as it was. *)
Theorem stream_network_failure_without_request (ti : option TargetInfo)
    (earlier later : list Event) (p : Params) :
  Forall event_in_range earlier ->
  in_datetime_range (timestamp p) ->
  (stream_network no_filters ti earlier).1.2 !! default "" (requestId p) = None ->
  let failed :=
    {| WatchEvent.ts := instant (timestamp p);
       WatchEvent.kind := FAILED;
       WatchEvent.url := "";
       WatchEvent.method := None;
       WatchEvent.status := None;
       WatchEvent.resource_type := type p;
       WatchEvent.redirect_url := None;
       WatchEvent.element := None;
       WatchEvent.target := ti;
       WatchEvent.request_id := requestId p;
       WatchEvent.error_text := errorText p;
       WatchEvent.mime_type := None;
       WatchEvent.frame_id := None |} in
  network_event no_filters ti (stream_network no_filters ti earlier).1.2 (loading_failed p) =
    ((stream_network no_filters ti earlier).1.2, Ok [failed]) /\
  (stream_network no_filters ti (earlier ++ [loading_failed p] ++ later)).1.1 =
    (stream_network no_filters ti earlier).1.1 ++ [failed] ++
    (stream_network_from no_filters ti later (stream_network no_filters ti earlier).1.2).1.1 /\
  (stream_network no_filters ti (earlier ++ [loading_failed p])).2 = None.
Proof.
  intros Hearlier Hrange Hnone failed.
  assert (Hstep :
    network_event no_filters ti (stream_network no_filters ti earlier).1.2 (loading_failed p) =
      ((stream_network no_filters ti earlier).1.2, Ok [failed])).
  { unfold network_event, loading_failed, from_loading_failed.
    cbn [method params from_option id String.eqb Ascii.eqb Bool.eqb].
    rewrite (parse_cdp_timestamp_in_range _ Hrange).
    rewrite Hnone, (delete_id _ _ Hnone). reflexivity. }
  split; [exact Hstep|].
  pose proof (stream_network_from_in_range no_filters ti earlier Hearlier ∅) as Hno_raise.
  unfold stream_network in *.
  rewrite !stream_network_from_app.
  destruct (stream_network_from no_filters ti earlier ∅) as [[y_earlier table] raised].
  simpl in Hno_raise. subst raised. cbn [fst snd] in *.
  split; [rewrite stream_network_from_app|]; rewrite stream_network_from_one, Hstep;
    [|done].
  by destruct (stream_network_from no_filters ti later table) as [[y_later final] raised].
Qed.

Lemma stream_network_failure_without_request_witness :
  (stream_network no_filters None
     ([] ++ [loading_failed (failed_at "R" 3)] ++ [])).1.1 =
    [ {| WatchEvent.ts := utc_fromtimestamp_ms 3;
         WatchEvent.kind := FAILED;
         WatchEvent.url := "";
         WatchEvent.method := None;
         WatchEvent.status := None;
         WatchEvent.resource_type := Some "XHR";
         WatchEvent.redirect_url := None;
         WatchEvent.element := None;
         WatchEvent.target := None;
         WatchEvent.request_id := Some "R";
         WatchEvent.error_text := Some "net::ERR_FAILED";
         WatchEvent.mime_type := None;
         WatchEvent.frame_id := None |} ].
Proof.
  refine (proj1 (proj2 (stream_network_failure_without_request None [] []
    (failed_at "R" 3) _ _ _))).
  - constructor.
  - intros t [= <-]. by vm_compute.
  - reflexivity.
Defined.

(** *** Properties of the session *)

(** C9, as stated, fails on a session whose channel the peer has closed:
    no channel is open, but [_ws] is still set and the guard of
    [send_command] lets the call through.  The call takes message id 1,
    registers a slot that stays in the pending table, and fails with the
    websockets exception [ConnectionClosed], not with the connection
    error. *)
Lemma send_command_on_closed_channel :
  let st := receive Closed (connected page_a) in
  no_open_channel st /\
  ~ not_connected_as_claimed st /\
  (send_command "Page.enable" None st).2 = SendRaised ConnectionClosed /\
  _message_id (self st) = 0 /\
  _message_id (self (send_command "Page.enable" None st).1) = 1 /\
  _pending_commands (self (send_command "Page.enable" None st).1) !! 1 = Some 1.
Proof.
  split; [by vm_compute|]. split; [|split; [|split; [|split]]]; by vm_compute.
Qed.

(** C9, amended.  On a session with no channel set -- before [connect] or
    after [disconnect] -- [send_command] fails at once with
    [CDPConnectionError] and leaves the whole state as it was: the
    message-id counter, the pending table, the futures, and there is no
    channel that anything could have been written to. *)
Theorem send_command_not_connected (method : string)
    (params : option (list (string * json))) (st : state) :
  _ws (self st) = None ->
  send_command method params st =
    (st, SendRaised (CDPConnectionError "Not connected to any target")).
Proof. intros Hws. unfold send_command. by rewrite Hws. Qed.

Lemma send_command_not_connected_witness :
  send_command "Page.enable" None initial =
    (initial, SendRaised (CDPConnectionError "Not connected to any target")).
Proof. apply (send_command_not_connected "Page.enable" None initial). reflexivity. Defined.

Lemma send_command_without_ws (method : string)
    (params : option (list (string * json))) (st : state) :
  _ws (self st) = None ->
  send_command method params st =
    (st, SendRaised (CDPConnectionError "Not connected to any target")).
Proof. intros Hws. unfold send_command. by rewrite Hws. Qed.

Lemma send_command_without_ws_state (method : string)
    (params : option (list (string * json))) (st : state) :
  _ws (self st) = None -> (send_command method params st).1 = st.
Proof. intros Hws. by rewrite send_command_without_ws. Qed.

Lemma stream_events_take (n : nat) :
  forall st, (stream_events n st).1 = take n (_event_queue (self st)).
Proof.
  induction n as [|n IH]; intros st; simpl; [done|].
  destruct (_event_queue (self st)) as [|event q] eqn:Hq; [done|].
  specialize (IH (set_event_queue st q)).
  destruct (stream_events n (set_event_queue st q)) as [events st'].
  simpl in *. by rewrite IH.
Qed.

(** A message that carries an id is never put on the event queue, whatever
    the pending table holds. *)
Lemma handle_message_with_id (message : json) (st : state) :
  carries_id message = true ->
  _event_queue (self (handle_message message st).1) = _event_queue (self st).
Proof.
  destruct message as [| | | |l|kvs]; try discriminate. intros Hid.
  unfold handle_message, py_in. simpl in Hid. rewrite Hid.
  destruct (py_getitem "id" (JDict kvs)) as [msg_id|]; [|done].
  destruct (int_key msg_id) as [key|]; [|done].
  set (st1 := match key with
              | Some k => set_pending st (delete k (_pending_commands (self st)))
              | None => st
              end).
  assert (Hq : _event_queue (self st1) = _event_queue (self st)) by (by destruct key).
  destruct (key ≫= _) as [ref|]; [|exact Hq].
  destruct (futures st1 !! ref) as [[| | |]|]; try exact Hq.
  unfold py_getitem.
  destruct (dict_get "error" kvs) as [err|]; simpl; [|exact Hq].
  destruct err; exact Hq.
Qed.

(** A well-formed delivery leaves the receive loop running, and enqueues
    the message exactly when it carries no id. *)
Lemma receive_well_formed (i : incoming) (st : state) :
  well_formed i = true -> _recv_task (self st) = Some true ->
  _recv_task (self (receive i st)) = Some true /\
  _event_queue (self (receive i st)) = _event_queue (self st) ++ events_of [i].
Proof.
  intros Hwf Htask. unfold receive. rewrite Htask.
  destruct i as [message| |]; try discriminate.
  destruct message as [| | | |l|kvs]; try discriminate.
  unfold events_of, handle_message, py_in, py_getitem, carries_id. simpl in Hwf |- *.
  destruct (dict_get "id" kvs) as [msg_id|] eqn:Hid; simpl.
  2:{ split; [exact Htask | done]. }
  apply andb_prop in Hwf as [Hscalar Herr].
  rewrite app_nil_r.
  destruct (int_key msg_id) as [key|e] eqn:Hkey; [|by destruct msg_id].
  set (st1 := match key with
              | Some k => set_pending st (delete k (_pending_commands (self st)))
              | None => st
              end).
  assert (Hst1 : _recv_task (self st1) = Some true /\
                 _event_queue (self st1) = _event_queue (self st)) by (by destruct key).
  destruct (key ≫= _) as [ref|]; [|exact Hst1].
  destruct (futures st1 !! ref) as [[| | |]|]; try exact Hst1.
  destruct (dict_get "error" kvs) as [err|]; simpl; [|exact Hst1].
  destruct err; try discriminate. exact Hst1.
Qed.

Lemma receive_with_id (message : json) (st : state) :
  carries_id message = true ->
  _event_queue (self (receive (Message message) st)) = _event_queue (self st).
Proof.
  intros Hid. unfold receive.
  destruct (_recv_task (self st)) as [[|]|]; try reflexivity.
  pose proof (handle_message_with_id message st Hid) as Hq.
  by destruct (handle_message message st) as [st' [e|]].
Qed.

Lemma events_of_cons (i : incoming) (frames : list incoming) :
  events_of (i :: frames) = events_of [i] ++ events_of frames.
Proof. unfold events_of. simpl. by destruct (match i with Message _ => _ | _ => _ end). Qed.

(** C1, as stated, fails: a message carrying a request id with no matching
    pending slot is not yielded.  On a session with an empty pending table
    the reply [{"id": 7, "result": {}}] matches no pending request, so the
    specification counts it as an event, but [stream_events] yields
    nothing. *)
Lemma stream_events_not_as_claimed :
  matches_pending (connected page_a) unmatched_reply = false /\
  events_as_claimed (connected page_a) [Message unmatched_reply] = [unmatched_reply] /\
  (stream_events 1 (receive_loop [Message unmatched_reply] (connected page_a))).1 = [] /\
  ~ (forall n st frames,
       (stream_events n (receive_loop frames st)).1 =
         take n (_event_queue (self st) ++ events_as_claimed st frames)).
Proof.
  split; [by vm_compute|]. split; [by vm_compute|]. split; [by vm_compute|].
  intros Hclaim.
  specialize (Hclaim 1%nat (connected page_a) [Message unmatched_reply]).
  vm_compute in Hclaim. discriminate Hclaim.
Qed.

(** C1, amended.  For every sequence of incoming channel messages in the
    shape of the protocol, received while the receive loop runs, the event
    stream yields exactly the messages that carry no request id, in arrival
    order (after what the queue already held); a message that carries a
    request id is never yielded, whether or not a pending slot matches it. *)
Theorem stream_events_yields_messages_without_id (st : state)
    (frames : list incoming) (n : nat) :
  _recv_task (self st) = Some true ->
  Forall (fun i => well_formed i = true) frames ->
  (stream_events n (receive_loop frames st)).1 =
    take n (_event_queue (self st) ++ events_of frames) /\
  Forall (fun message => carries_id message = false) (events_of frames) /\
  (forall message st',
     carries_id message = true ->
     _event_queue (self (receive (Message message) st')) = _event_queue (self st')).
Proof.
  intros Htask Hwf. split; [|split].
  - rewrite stream_events_take. f_equal.
    revert st Htask. induction Hwf as [|i rest Hi _ IH]; intros st Htask.
    + simpl. by rewrite app_nil_r.
    + destruct (receive_well_formed i st Hi Htask) as [Htask' Hq].
      unfold receive_loop in *. simpl foldl.
      rewrite (IH _ Htask'), Hq, (events_of_cons i rest). by rewrite <- app_assoc.
  - clear. induction frames as [|i rest IH]; [constructor|].
    rewrite (events_of_cons i rest). apply Forall_app. split; [|exact IH].
    destruct i as [message| |]; try constructor.
    unfold events_of. simpl. destruct (carries_id message) eqn:Hid; constructor; done.
  - intros message st'. apply receive_with_id.
Qed.

Lemma stream_events_yields_messages_without_id_witness :
  (stream_events 5
     (receive_loop [Message load_event; Message unmatched_reply; Message load_event]
        (connected page_a))).1 = [load_event; load_event].
Proof.
  refine (proj1 (stream_events_yields_messages_without_id (connected page_a)
    [Message load_event; Message unmatched_reply; Message load_event] 5 _ _)).
  - reflexivity.
  - repeat constructor.
Defined.

(** *** The session invariant and the life of a call *)

Lemma evolves_refl (st : state) : evolves st st.
Proof. split; try done. intros k f Hf. exists f. split; [done | by left]. Qed.

Lemma future_step_trans (f1 f2 f3 : future) :
  future_step f1 f2 -> future_step f2 f3 -> future_step f1 f3.
Proof.
  intros [-> | [-> H2]] [-> | [-> H3]]; try (by left); by right.
Qed.

Lemma evolves_trans (st1 st2 st3 : state) :
  evolves st1 st2 -> evolves st2 st3 -> evolves st1 st3.
Proof.
  intros [c1 p1 a1 f1 n1] [c2 p2 a2 f2 n2]. split.
  - congruence.
  - eauto.
  - congruence.
  - intros k f Hf. destruct (f1 k f Hf) as (f' & Hf' & Hstep).
    destruct (f2 k f' Hf') as (f'' & Hf'' & Hstep').
    exists f''. split; [done | by eapply future_step_trans].
  - eauto.
Qed.

Lemma evolves_set_pending_delete (st : state) (k : Z) :
  evolves st (set_pending st (delete k (_pending_commands (self st)))).
Proof.
  split; try done.
  - intros k' ref. simpl. intros [_ H]%lookup_delete_Some. exact H.
  - intros k' f Hf. exists f. split; [done | by left].
Qed.

Lemma evolves_set_event_queue (st : state) (q : list json) :
  evolves st (set_event_queue st q).
Proof. split; try done. intros k f Hf. exists f. split; [done | by left]. Qed.

Lemma evolves_recv_return (st : state) : evolves st (recv_return st).
Proof. split; try done. intros k f Hf. exists f. split; [done | by left]. Qed.

Lemma evolves_set_future (st : state) (ref : Z) (f' : future) :
  futures st !! ref = Some FPending -> settled f' ->
  evolves st (set_future st ref f').
Proof.
  intros Href Hsettled. split; try done.
  - intros k f Hf. simpl. destruct (decide (ref = k)) as [->|Hne].
    + rewrite lookup_insert_eq. exists f'. split; [done|].
      right. split; [congruence | done].
    + rewrite lookup_insert_ne by done. exists f. split; [done | by left].
  - intros k Hk. simpl. rewrite lookup_insert_ne; [done | congruence].
Qed.

Lemma evolves_handle_message (message : json) (st : state) :
  evolves st (handle_message message st).1.
Proof.
  unfold handle_message.
  destruct (py_in "id" message) as [[|]|]; simpl;
    [| apply evolves_set_event_queue | apply evolves_refl].
  destruct (py_getitem "id" message) as [msg_id|]; [|apply evolves_refl].
  destruct (int_key msg_id) as [key|]; [|apply evolves_refl].
  set (st1 := match key with
              | Some k => set_pending st (delete k (_pending_commands (self st)))
              | None => st
              end).
  assert (H1 : evolves st st1).
  { destruct key; [apply evolves_set_pending_delete | apply evolves_refl]. }
  destruct (key ≫= _) as [ref|]; [|exact H1].
  destruct (futures st1 !! ref) as [[| | |]|] eqn:Href; try exact H1.
  destruct (py_in "error" message) as [[|]|]; try exact H1.
  - destruct (py_getitem "error" message) as [err|]; [|exact H1].
    destruct (py_get "code" _ err) as [code|]; [|exact H1].
    destruct (py_get "message" _ err) as [msg|]; [|exact H1].
    eapply evolves_trans; [exact H1 | by apply evolves_set_future].
  - destruct (py_get "result" _ message) as [r|]; [|exact H1].
    eapply evolves_trans; [exact H1 | by apply evolves_set_future].
Qed.

Lemma evolves_receive (i : incoming) (st : state) : evolves st (receive i st).
Proof.
  unfold receive. destruct (_recv_task (self st)) as [[|]|]; try apply evolves_refl.
  destruct i as [message| |].
  - pose proof (evolves_handle_message message st) as H.
    destruct (handle_message message st) as [st' [e|]]; simpl in H; [|exact H].
    eapply evolves_trans; [exact H | apply evolves_recv_return].
  - apply evolves_recv_return.
  - split; try done. intros k f Hf. exists f. split; [done | by left].
Qed.

Lemma evolves_timeout (msg_id : Z) (st : state) : evolves st (timeout msg_id st).1.
Proof.
  unfold timeout.
  destruct (awaited st !! msg_id) as [[method deadline]|]; [|apply evolves_refl].
  destruct (futures st !! msg_id) as [[| | |]|] eqn:Hf; try apply evolves_refl.
  case_bool_decide; [|apply evolves_refl]. simpl.
  eapply evolves_trans; [apply evolves_set_pending_delete|].
  by apply evolves_set_future.
Qed.

(** Every transition but [send_command] allocates nothing. *)
Lemma evolves_step (st : state) (a : action) :
  (forall method params, a <> ASendCommand method params) ->
  evolves st (step st a).1.
Proof.
  intros Hsend. destruct a as [method params|i|msg_id|dt| |]; simpl.
  - by destruct (Hsend method params).
  - apply evolves_receive.
  - pose proof (evolves_timeout msg_id st) as H. by destruct (timeout msg_id st).
  - split; try done. intros k f Hf. exists f. split; [done | by left].
  - split; try done. intros k f Hf. exists f. split; [done | by left].
  - destruct (_event_queue (self st)) as [|event q]; [apply evolves_refl|].
    apply evolves_set_event_queue.
Qed.

Lemma invariant_initial : session_invariant initial.
Proof. split; intros k x; simpl; by rewrite lookup_empty. Qed.

Lemma invariant_connect (target : CDPTarget.t) (st : state) :
  session_invariant st -> session_invariant (connect target st).
Proof. intros [Hf Hp Ha He]. split; simpl; eauto. Qed.

Lemma invariant_evolves (st st' : state) :
  session_invariant st -> evolves st st' -> session_invariant st'.
Proof.
  intros [Hf Hp Ha He] [Hc Hpend Haw Hfut Hnew]. split.
  - intros k f' Hk. rewrite Hc.
    destruct (futures st !! k) as [f|] eqn:Hold; [by eapply Hf|].
    rewrite (Hnew k Hold) in Hk. discriminate Hk.
  - eauto.
  - intros k v Hk. rewrite Haw in Hk.
    destruct (Ha k v Hk) as [f Hold].
    destruct (Hfut k f Hold) as (f' & Hf' & _). by exists f'.
  - intros k e Hk.
    destruct (futures st !! k) as [f|] eqn:Hold.
    + destruct (Hfut k f Hold) as (f' & Hf' & [-> | [-> Hsettled]]).
      * apply (He k). congruence.
      * rewrite Hk in Hf'. injection Hf' as <-. simpl in Hsettled.
        destruct e; try done. eauto.
    + rewrite (Hnew k Hold) in Hk. discriminate Hk.
Qed.

(** What [send_command] does to a connected session: it allocates the next
    message id, registers a pending future under it, and either suspends
    after writing to the channel or fails on a closed channel. *)
Lemma send_command_connected (method : string) (params : option (list (string * json)))
    (st : state) (ws : ClientConnection) :
  _ws (self st) = Some ws ->
  let msg_id := _message_id (self st) + 1 in
  let st' := (send_command method params st).1 in
  _message_id (self st') = msg_id /\
  _pending_commands (self st') = <[msg_id := msg_id]> (_pending_commands (self st)) /\
  futures st' = <[msg_id := FPending]> (futures st) /\
  clock st' = clock st /\
  _recv_task (self st') = _recv_task (self st) /\
  _event_queue (self st') = _event_queue (self st) /\
  if closed ws
  then awaited st' = awaited st /\
       (send_command method params st).2 = SendRaised ConnectionClosed
  else awaited st' = <[msg_id := (method, clock st + COMMAND_TIMEOUT)]> (awaited st) /\
       (send_command method params st).2 = Suspended msg_id.
Proof.
  intros Hws. unfold send_command. rewrite Hws.
  destruct (closed ws); simpl; repeat split; reflexivity.
Qed.

Lemma invariant_send_command (method : string) (params : option (list (string * json)))
    (st : state) :
  session_invariant st -> session_invariant (send_command method params st).1.
Proof.
  intros Hinv. destruct (_ws (self st)) as [ws|] eqn:Hws.
  2:{ by rewrite (send_command_without_ws_state _ _ _ Hws). }
  destruct (send_command_connected method params st ws Hws)
    as (Hid & Hpend & Hfut & _ & _ & _ & Haw).
  destruct Hinv as [Hf Hp Ha He]. split.
  - intros k f. rewrite Hid, Hfut. intros [[<- _] | [_ Hk]]%lookup_insert_Some; [lia|].
    specialize (Hf k f Hk). lia.
  - intros k ref. rewrite Hpend.
    intros [[<- <-] | [_ Hk]]%lookup_insert_Some; [done | eauto].
  - intros k v Hk. rewrite Hfut.
    destruct (decide (_message_id (self st) + 1 = k)) as [<-|Hne].
    { rewrite lookup_insert_eq. eauto. }
    rewrite lookup_insert_ne by done.
    destruct (closed ws); destruct Haw as [Haw _]; rewrite Haw in Hk.
    + eauto.
    + rewrite lookup_insert_ne in Hk by done. eauto.
  - intros k e. rewrite Hfut.
    intros [[_ ?] | [_ Hk]]%lookup_insert_Some; [done | eauto].
Qed.

Lemma invariant_step (st : state) (a : action) :
  session_invariant st -> session_invariant (step st a).1.
Proof.
  intros Hinv. destruct a as [method params|i|msg_id|dt| |].
  - simpl. pose proof (invariant_send_command method params st Hinv) as H.
    by destruct (send_command method params st).
  - apply (invariant_evolves st); [done | by apply evolves_step].
  - apply (invariant_evolves st); [done | by apply evolves_step].
  - apply (invariant_evolves st); [done | by apply evolves_step].
  - apply (invariant_evolves st); [done | by apply evolves_step].
  - apply (invariant_evolves st); [done | by apply evolves_step].
Qed.

Lemma invariant_run (acts : list action) :
  forall st, session_invariant st -> session_invariant (run st acts).
Proof.
  induction acts as [|a rest IH]; intros st Hinv; simpl; [done|].
  apply IH. by apply invariant_step.
Qed.

Lemma invariant_connected (target : CDPTarget.t) (acts : list action) :
  session_invariant (run (connected target) acts).
Proof. apply invariant_run, invariant_connect, invariant_initial. Qed.

(** A settled future and the awaited entry are kept by a transition that
    allocates nothing. *)
Ltac kept_by_evolves st Hf :=
  match goal with
  | |- context [step st ?a] =>
    let Haw := fresh "Haw" in
    let Hfut := fresh "Hfut" in
    destruct (evolves_step st a ltac:(done)) as [_ _ Haw Hfut _];
    rewrite Haw; (split; [done|]);
    by destruct (Hfut _ _ Hf) as (? & ? & [-> | [-> _]])
  end.

(** A completed call keeps its outcome through every transition. *)
Lemma completion_step (st : state) (a : action) (msg_id : Z) (o : result json) :
  session_invariant st ->
  completion msg_id st = Some o -> completion msg_id (step st a).1 = Some o.
Proof.
  intros Hinv Hdone.
  assert (Hfut : exists v f, awaited st !! msg_id = Some v /\
                             futures st !! msg_id = Some f /\ f <> FPending).
  { unfold completion in Hdone.
    destruct (awaited st !! msg_id) as [[method deadline]|]; [|done].
    destruct (futures st !! msg_id) as [[| | |]|]; try done; eauto 6. }
  destruct Hfut as (v & f & Hv & Hf & Hne).
  assert (Hkeep : awaited (step st a).1 !! msg_id = Some v /\
                  futures (step st a).1 !! msg_id = Some f).
  { destruct a as [method params|i|k|dt| |].
    - simpl. destruct (_ws (self st)) as [ws|] eqn:Hws.
      2:{ pose proof (send_command_without_ws_state method params st Hws) as H.
          destruct (send_command method params st). simpl in *. by subst. }
      destruct (send_command_connected method params st ws Hws)
        as (_ & _ & Hfut & _ & _ & _ & Haw).
      pose proof (inv_futures st Hinv msg_id f Hf) as Hle.
      destruct (send_command method params st) as [st' o']. simpl in *.
      rewrite Hfut, lookup_insert_ne by lia. split; [|done].
      destruct (closed ws); destruct Haw as [-> _]; [done|].
      rewrite lookup_insert_ne by lia. done.
    - kept_by_evolves st Hf.
    - kept_by_evolves st Hf.
    - kept_by_evolves st Hf.
    - kept_by_evolves st Hf.
    - kept_by_evolves st Hf. }
  destruct Hkeep as [Hv' Hf'].
  unfold completion in *. rewrite Hv', Hf'. by rewrite Hv, Hf in Hdone.
Qed.

Lemma completion_run (acts : list action) :
  forall st msg_id o,
    session_invariant st ->
    completion msg_id st = Some o -> completion msg_id (run st acts) = Some o.
Proof.
  induction acts as [|a rest IH]; intros st msg_id o Hinv Hdone; simpl; [done|].
  apply IH; [by apply invariant_step | by apply completion_step].
Qed.

(** A completed call returned the reply's result, or failed with a protocol
    error, or failed with its timeout error. *)
Lemma completion_outcome (st : state) (msg_id : Z) (o : result json) :
  session_invariant st -> completion msg_id st = Some o ->
  exists method deadline,
    awaited st !! msg_id = Some (method, deadline) /\
    ((exists r, futures st !! msg_id = Some (FResult r) /\ o = Ok r) \/
     (exists code message,
        futures st !! msg_id = Some (FException (CDPProtocolError code message)) /\
        o = Raise (CDPProtocolError code message)) \/
     (futures st !! msg_id = Some FCancelled /\ o = Raise (timeout_error method))).
Proof.
  intros Hinv Hdone. unfold completion in Hdone.
  destruct (awaited st !! msg_id) as [[method deadline]|]; [|done].
  exists method, deadline. split; [done|].
  destruct (futures st !! msg_id) as [[|r|e|]|] eqn:Hf; try done.
  - left. exists r. split; congruence.
  - right; left. destruct (inv_exception st Hinv msg_id e Hf) as (code & message & ->).
    exists code, message. split; congruence.
  - right; right. unfold timeout_error. split; congruence.
Qed.

(** The timeout of a call that is still pending past its deadline: the
    future is cancelled, the slot is popped, the call fails. *)
Lemma timeout_fires (st : state) (msg_id : Z) (method : string) (deadline : Z) :
  awaited st !! msg_id = Some (method, deadline) ->
  futures st !! msg_id = Some FPending ->
  deadline <= clock st ->
  (timeout msg_id st).2 = Some (timeout_error method) /\
  _pending_commands (self (timeout msg_id st).1) !! msg_id = None /\
  completion msg_id (timeout msg_id st).1 = Some (Raise (timeout_error method)).
Proof.
  intros Haw Hf Hle. unfold timeout. rewrite Haw, Hf.
  rewrite bool_decide_eq_true_2 by done. simpl. split; [done|]. split.
  - apply lookup_delete_eq.
  - unfold completion. simpl. by rewrite Haw, lookup_insert_eq.
Qed.

(** Before the deadline, or once the future is settled, the timeout does
    nothing. *)
Lemma timeout_not_due (st : state) (msg_id : Z) (method : string) (deadline : Z) :
  awaited st !! msg_id = Some (method, deadline) ->
  clock st < deadline ->
  timeout msg_id st = (st, None).
Proof.
  intros Haw Hlt. unfold timeout. rewrite Haw.
  destruct (futures st !! msg_id) as [[| | |]|]; try done.
  rewrite bool_decide_eq_false_2 by lia. done.
Qed.

(** [disconnect] settles no future: it only empties the table. *)
Lemma disconnect_completes_nothing (st : state) (msg_id : Z) :
  completion msg_id (disconnect st) = completion msg_id st /\
  futures (disconnect st) = futures st /\
  _pending_commands (self (disconnect st)) = ∅ /\
  disconnected (disconnect st).
Proof. repeat split. Qed.

(** On a disconnected session a pending call stays pending until its own
    timeout cancels it, which needs the deadline to have passed. *)
Lemma disconnected_step (st : state) (a : action) (msg_id : Z) (method : string)
    (deadline : Z) :
  disconnected st -> pending_or_timed_out msg_id method deadline st ->
  disconnected (step st a).1 /\ pending_or_timed_out msg_id method deadline (step st a).1.
Proof.
  intros [Hws Htask] [Haw Hfut]. destruct a as [m params|i|k|dt| |]; simpl.
  - rewrite (send_command_without_ws m params st Hws). simpl. by repeat split.
  - unfold receive. rewrite Htask. by repeat split.
  - unfold timeout.
    destruct (awaited st !! k) as [[method' deadline']|] eqn:Hk; [|by repeat split].
    destruct (futures st !! k) as [[| | |]|] eqn:Hfk; try by repeat split.
    case_bool_decide as Hdue; [|by repeat split].
    simpl. split; [done|]. split; [done|]. simpl.
    destruct (decide (k = msg_id)) as [->|Hne].
    + rewrite lookup_insert_eq. right. split; [done|]. congruence.
    + by rewrite lookup_insert_ne.
  - split; [done|]. split; [done|]. simpl.
    destruct Hfut as [?|[? ?]]; [by left | right; split; [done | lia]].
  - by repeat split.
  - destruct (_event_queue (self st)); by repeat split.
Qed.

Lemma disconnected_run (acts : list action) :
  forall st msg_id method deadline,
    disconnected st -> pending_or_timed_out msg_id method deadline st ->
    pending_or_timed_out msg_id method deadline (run st acts).
Proof.
  induction acts as [|a rest IH]; intros st msg_id method deadline Hd Hp; simpl; [done|].
  destruct (disconnected_step st a msg_id method deadline Hd Hp) as [Hd' Hp'].
  by apply IH.
Qed.

Ltac allocated_by_evolves st :=
  match goal with
  | |- context [step st ?a] =>
    let Hc := fresh "Hc" in
    let Hp := fresh "Hp" in
    let Haw := fresh "Haw" in
    destruct (evolves_step st a ltac:(done)) as [Hc Hp Haw _ _];
    rewrite Hc, Haw; (split; [done|]); (split; [done|]);
    let Hnone := fresh "Hnone" in
    intros Hnone;
    match goal with
    | |- ?m !! ?k = None =>
      destruct (m !! k) as [ref|] eqn:Hk; [|done];
      apply Hp in Hk; congruence
    end
  end.

(** The awaited entry of a call stays through every transition, and a slot
    removed from the pending table is never registered again: later calls
    take larger message ids. *)
Lemma allocated_step (st : state) (a : action) (msg_id : Z) :
  session_invariant st -> msg_id <= _message_id (self st) ->
  msg_id <= _message_id (self (step st a).1) /\
  (forall v, awaited st !! msg_id = Some v -> awaited (step st a).1 !! msg_id = Some v) /\
  (_pending_commands (self st) !! msg_id = None ->
   _pending_commands (self (step st a).1) !! msg_id = None).
Proof.
  intros Hinv Hle. destruct a as [method params|i|k|dt| |].
  - simpl. destruct (_ws (self st)) as [ws|] eqn:Hws.
    2:{ pose proof (send_command_without_ws_state method params st Hws) as H.
        destruct (send_command method params st). simpl in *. by subst. }
    destruct (send_command_connected method params st ws Hws)
      as (Hid & Hpend & _ & _ & _ & _ & Haw).
    destruct (send_command method params st) as [st' o']. simpl in *.
    rewrite Hid, Hpend. split; [lia|]. split.
    + intros v Hv. destruct (closed ws); destruct Haw as [-> _]; [done|].
      by rewrite lookup_insert_ne by lia.
    + intros Hnone. by rewrite lookup_insert_ne by lia.
  - allocated_by_evolves st.
  - allocated_by_evolves st.
  - allocated_by_evolves st.
  - allocated_by_evolves st.
  - allocated_by_evolves st.
Qed.

Lemma allocated_run (acts : list action) :
  forall st msg_id,
    session_invariant st -> msg_id <= _message_id (self st) ->
    (forall v, awaited st !! msg_id = Some v -> awaited (run st acts) !! msg_id = Some v) /\
    (_pending_commands (self st) !! msg_id = None ->
     _pending_commands (self (run st acts)) !! msg_id = None).
Proof.
  induction acts as [|a rest IH]; intros st msg_id Hinv Hle; simpl; [done|].
  destruct (allocated_step st a msg_id Hinv Hle) as (Hle' & Haw & Hpend).
  destruct (IH (step st a).1 msg_id (invariant_step st a Hinv) Hle') as [Haw' Hpend'].
  split; eauto.
Qed.

Lemma awaited_allocated (st : state) (msg_id : Z) (v : string * Z) :
  session_invariant st -> awaited st !! msg_id = Some v ->
  msg_id <= _message_id (self st).
Proof.
  intros Hinv Hv. destruct (inv_awaited st Hinv msg_id v Hv) as [f Hf].
  by apply (inv_futures st Hinv msg_id f).
Qed.

Lemma awaited_not_completed (st : state) (msg_id : Z) (v : string * Z) :
  session_invariant st -> awaited st !! msg_id = Some v ->
  completion msg_id st = None -> futures st !! msg_id = Some FPending.
Proof.
  intros Hinv Hv Hnone. destruct (inv_awaited st Hinv msg_id v Hv) as [f Hf].
  unfold completion in Hnone. rewrite Hv, Hf in Hnone.
  destruct v. by destruct f.
Qed.

(** C2, as stated, fails: [disconnect] clears the pending table and touches
    no future.  A call of [Page.enable] suspended on a connected session is
    still unresolved after [disconnect]: its future is still pending. *)
Lemma disconnect_leaves_call_unresolved :
  (send_command "Page.enable" None (connected page_a)).2 = Suspended 1 /\
  completion 1 (disconnect (send_command "Page.enable" None (connected page_a)).1) = None /\
  futures (disconnect (send_command "Page.enable" None (connected page_a)).1) !! 1 =
    Some FPending /\
  ~ resolved_after_disconnect (send_command "Page.enable" None (connected page_a)).1.
Proof.
  split; [by vm_compute|]. split; [by vm_compute|]. split; [by vm_compute|].
  intros Hclaim. destruct (Hclaim 1) as [o Ho].
  - vm_compute. eauto.
  - vm_compute in Ho. discriminate Ho.
Qed.

(** C2, amended.  On every state that a connected session reaches:
    [send_command] either raises at once (not connected, or the write hits a
    closed channel) or suspends under a fresh message id with a pending
    future and a deadline 30 time units ahead; a call that has completed
    keeps its outcome for ever (it never completes twice), and the outcome
    is the reply's result, a protocol error, or the call's own timeout
    error; [disconnect] completes no call -- it only empties the pending
    table -- and a call still pending at [disconnect] stays suspended until
    its own timeout, which then fails it with [CDPConnectionError]. *)
Theorem send_command_completes_at_most_once (target : CDPTarget.t)
    (acts : list action) (msg_id : Z) :
  let st := run (connected target) acts in
  (forall method params,
     match (send_command method params st).2 with
     | Suspended k =>
       k = _message_id (self st) + 1 /\
       awaited (send_command method params st).1 !! k =
         Some (method, clock st + COMMAND_TIMEOUT) /\
       futures (send_command method params st).1 !! k = Some FPending /\
       completion k st = None
     | SendRaised e =>
       e = CDPConnectionError "Not connected to any target" \/ e = ConnectionClosed
     end) /\
  (forall o, completion msg_id st = Some o ->
     (forall later, completion msg_id (run st later) = Some o) /\
     exists method deadline,
       awaited st !! msg_id = Some (method, deadline) /\
       ((exists r, o = Ok r) \/
        (exists code message, o = Raise (CDPProtocolError code message)) \/
        o = Raise (timeout_error method))) /\
  (completion msg_id (disconnect st) = completion msg_id st /\
   futures (disconnect st) = futures st /\
   _pending_commands (self (disconnect st)) = ∅) /\
  (forall method deadline,
     awaited st !! msg_id = Some (method, deadline) ->
     completion msg_id st = None ->
     (forall later o,
        completion msg_id (run (disconnect st) later) = Some o ->
        o = Raise (timeout_error method) /\
        deadline <= clock (run (disconnect st) later)) /\
     completion msg_id
       (run (disconnect st) [ATick (Z.to_N (deadline - clock st)); ATimeout msg_id]) =
       Some (Raise (timeout_error method))).
Proof.
  intros st. pose proof (invariant_connected target acts) as Hinv. fold st in Hinv.
  split; [|split; [|split]].
  - intros method params. destruct (_ws (self st)) as [ws|] eqn:Hws.
    + destruct (send_command_connected method params st ws Hws)
        as (_ & _ & Hfut & _ & _ & _ & Haw).
      destruct (closed ws); destruct Haw as [Haw ->]; [by right|].
      rewrite Haw, Hfut, !lookup_insert_eq. repeat split.
      unfold completion.
      destruct (awaited st !! _) as [v|] eqn:Hv; [|done].
      pose proof (awaited_allocated st _ v Hinv Hv). lia.
    + rewrite (send_command_without_ws method params st Hws). by left.
  - intros o Hdone. split.
    + intros later. by apply completion_run.
    + destruct (completion_outcome st msg_id o Hinv Hdone)
        as (method & deadline & Haw & [(r & _ & ->) | [(c & m & _ & ->) | [_ ->]]]);
        exists method, deadline; (split; [done|]); eauto.
  - by destruct (disconnect_completes_nothing st msg_id) as (? & ? & ? & _).
  - intros method deadline Haw Hnone.
    pose proof (awaited_not_completed st msg_id _ Hinv Haw Hnone) as Hpending.
    split.
    + intros later o Ho.
      destruct (disconnected_run later (disconnect st) msg_id method deadline)
        as [Haw' Hfut'].
      { by split. }
      { split; [done | by left]. }
      unfold completion in Ho. rewrite Haw' in Ho.
      destruct Hfut' as [Hf | [Hf Hle]]; rewrite Hf in Ho; [done|].
      unfold timeout_error. split; [congruence | done].
    + set (st1 := tick (Z.to_N (deadline - clock st)) (disconnect st)).
      change (completion msg_id (step st1 (ATimeout msg_id)).1 =
                Some (Raise (timeout_error method))).
      destruct (timeout_fires st1 msg_id method deadline) as (_ & _ & Hdone);
        [done | done | simpl; lia |].
      simpl. by destruct (timeout msg_id st1).
Qed.

Lemma send_command_completes_at_most_once_witness :
  completion 1
    (run (disconnect (run (connected page_a) [ASendCommand "Page.enable" None]))
         [ATick 30; ATimeout 1]) =
    Some (Raise (timeout_error "Page.enable")).
Proof.
  refine (proj2 (proj2 (proj2 (proj2
    (send_command_completes_at_most_once page_a [ASendCommand "Page.enable" None] 1)))
    "Page.enable" 30 _ _)).
  - by vm_compute.
  - by vm_compute.
Defined.

(** C7. A [send_command] call suspended on a reachable session, whose
    future is still pending once 30 time units have passed on the clock,
    fails with [CDPConnectionError] when its timeout fires, and the handler
    pops its result-slot: the pending table holds no entry for that message
    id then, nor at any later time.  Before the 30 time units have passed
    the timeout does nothing. *)
Theorem send_command_timeout_removes_slot (target : CDPTarget.t)
    (acts later : list action) (method : string)
    (params : option (list (string * json))) (msg_id : Z) :
  let st0 := run (connected target) acts in
  let st := run (send_command method params st0).1 later in
  (send_command method params st0).2 = Suspended msg_id ->
  (clock st < clock st0 + 30 -> timeout msg_id st = (st, None)) /\
  (futures st !! msg_id = Some FPending ->
   clock st0 + 30 <= clock st ->
   (timeout msg_id st).2 =
     Some (CDPConnectionError ("Timeout waiting for response to " +:+ method)) /\
   completion msg_id (timeout msg_id st).1 =
     Some (Raise (CDPConnectionError ("Timeout waiting for response to " +:+ method))) /\
   _pending_commands (self (timeout msg_id st).1) !! msg_id = None /\
   forall after,
     _pending_commands (self (run (timeout msg_id st).1 after)) !! msg_id = None).
Proof.
  intros st0 st Hsuspended.
  pose proof (invariant_connected target acts) as Hinv0. fold st0 in Hinv0.
  pose proof (invariant_send_command method params st0 Hinv0) as Hinv1.
  pose proof (invariant_run later _ Hinv1) as Hinv. fold st in Hinv.
  assert (Haw1 : awaited (send_command method params st0).1 !! msg_id =
                   Some (method, clock st0 + 30)).
  { destruct (_ws (self st0)) as [ws|] eqn:Hws.
    - destruct (send_command_connected method params st0 ws Hws)
        as (_ & _ & _ & _ & _ & _ & Haw).
      destruct (closed ws); destruct Haw as [Haw Hout];
        rewrite Hout in Hsuspended; [discriminate Hsuspended|].
      injection Hsuspended as <-. rewrite Haw. apply lookup_insert_eq.
    - rewrite (send_command_without_ws method params st0 Hws) in Hsuspended.
      discriminate Hsuspended. }
  pose proof (awaited_allocated _ _ _ Hinv1 Haw1) as Hle1.
  destruct (allocated_run later _ msg_id Hinv1 Hle1) as [Haw _].
  specialize (Haw _ Haw1). fold st in Haw.
  split.
  - intros Hearly. by apply (timeout_not_due st msg_id method (clock st0 + 30)).
  - intros Hpending Hdue.
    destruct (timeout_fires st msg_id method (clock st0 + 30) Haw Hpending Hdue)
      as (Hraise & Hpopped & Hdone).
    repeat split; try done.
    intros after.
    pose proof (evolves_timeout msg_id st) as Hev.
    pose proof (invariant_evolves _ _ Hinv Hev) as Hinv'.
    assert (Hle' : msg_id <= _message_id (self (timeout msg_id st).1)).
    { rewrite (ev_counter _ _ Hev). by apply (awaited_allocated st msg_id _ Hinv Haw). }
    destruct (allocated_run after _ msg_id Hinv' Hle') as [_ Hgone].
    by apply Hgone.
Qed.

Lemma send_command_timeout_removes_slot_witness :
  _pending_commands
    (self (timeout 1 (run (send_command "Page.enable" None (run (connected page_a) [])).1
                          [ATick 30])).1) !! 1 = None.
Proof.
  refine (proj1 (proj2 (proj2 (proj2
    (send_command_timeout_removes_slot page_a [] [ATick 30] "Page.enable" None 1 _) _ _)))).
  - by vm_compute.
  - by vm_compute.
  - by vm_compute.
Defined.

(** ** Further properties of the session *)

Lemma set_pending_same (st : state) :
  set_pending st (_pending_commands (self st)) = st.
Proof. by destruct st as [[ws mid pending q task target] fs aw now]. Qed.

Lemma py_in_dict (key : string) (kvs : list (string * json)) (v : json) :
  dict_get key kvs = Some v -> py_in key (JDict kvs) = Ok true.
Proof. intros H. unfold py_in. by rewrite H. Qed.

Lemma py_in_dict_none (key : string) (kvs : list (string * json)) :
  dict_get key kvs = None -> py_in key (JDict kvs) = Ok false.
Proof. intros H. unfold py_in. by rewrite H. Qed.

(** What handling a reply does when its id has a pending slot with a
    pending future: the slot is popped and the future is settled by
    [settle]. *)
Lemma handle_message_pending (st : state) (k : Z) (kvs : list (string * json)) :
  dict_get "id" kvs = Some (JInt k) ->
  _pending_commands (self st) !! k = Some k ->
  futures st !! k = Some FPending ->
  handle_message (JDict kvs) st =
    match dict_get "error" kvs with
    | None =>
      (set_future (set_pending st (delete k (_pending_commands (self st)))) k
         (FResult (default (JDict []) (dict_get "result" kvs))), None)
    | Some (JDict err) =>
      (set_future (set_pending st (delete k (_pending_commands (self st)))) k
         (FException (CDPProtocolError (default (JInt (-1)) (dict_get "code" err))
                                       (default (JStr "") (dict_get "message" err)))),
       None)
    | Some _ => (set_pending st (delete k (_pending_commands (self st))), Some AttributeError)
    end.
Proof.
  intros Hid Hslot Hfut. unfold handle_message.
  rewrite (py_in_dict _ _ _ Hid). unfold py_getitem. rewrite Hid. simpl int_key.
  cbn [mbind option_bind]. rewrite Hslot.
  change (futures (set_pending st (delete k (_pending_commands (self st)))) !! k)
    with (futures st !! k).
  rewrite Hfut.
  destruct (dict_get "error" kvs) as [err|] eqn:Herr.
  - rewrite (py_in_dict _ _ _ Herr). by destruct err.
  - by rewrite (py_in_dict_none _ _ Herr).
Qed.

(** X1. A reply [{"id": k, "result": r}] that arrives while call [k] is
    pending fulfils exactly that call with [r] (with the empty object when
    the reply has no result key), pops its slot, and touches no other
    future, no other slot and not the event queue: replies are correlated by
    id, whatever the order they arrive in. *)
Theorem reply_fulfils_its_own_call (st : state) (k : Z) (kvs : list (string * json)) :
  _recv_task (self st) = Some true ->
  dict_get "id" kvs = Some (JInt k) ->
  dict_get "error" kvs = None ->
  _pending_commands (self st) !! k = Some k ->
  futures st !! k = Some FPending ->
  let st' := receive (Message (JDict kvs)) st in
  futures st' !! k = Some (FResult (default (JDict []) (dict_get "result" kvs))) /\
  _pending_commands (self st') !! k = None /\
  (forall j, j <> k ->
     futures st' !! j = futures st !! j /\
     _pending_commands (self st') !! j = _pending_commands (self st) !! j) /\
  _event_queue (self st') = _event_queue (self st) /\
  _recv_task (self st') = Some true.
Proof.
  intros Htask Hid Herr Hslot Hfut st'. unfold st', receive. rewrite Htask.
  rewrite (handle_message_pending st k kvs Hid Hslot Hfut), Herr. simpl.
  split; [by rewrite lookup_insert_eq|]. split; [by rewrite lookup_delete_eq|].
  split; [|done]. intros j Hj.
  by rewrite lookup_insert_ne, lookup_delete_ne.
Qed.

Lemma reply_fulfils_its_own_call_witness :
  futures (receive (Message (JDict [("id", JInt 1); ("result", JStr "ok")]))
             (send_command "Page.enable" None (connected page_a)).1) !! 1 =
    Some (FResult (JStr "ok")).
Proof.
  refine (proj1 (reply_fulfils_its_own_call
    (send_command "Page.enable" None (connected page_a)).1 1
    [("id", JInt 1); ("result", JStr "ok")] _ _ _ _ _)); by vm_compute.
Defined.

(** X2. An error-shaped reply [{"id": k, "error": {...}}] that arrives while
    call [k] is pending fails that call with [CDPProtocolError] carrying the
    error's code and message, with code [-1] and message [""] for absent
    keys; the error wins over a result key in the same reply, the slot is
    popped and no other future is touched. *)
Theorem error_reply_fails_its_own_call (st : state) (k : Z)
    (kvs err : list (string * json)) :
  _recv_task (self st) = Some true ->
  dict_get "id" kvs = Some (JInt k) ->
  dict_get "error" kvs = Some (JDict err) ->
  _pending_commands (self st) !! k = Some k ->
  futures st !! k = Some FPending ->
  let st' := receive (Message (JDict kvs)) st in
  futures st' !! k =
    Some (FException (CDPProtocolError (default (JInt (-1)) (dict_get "code" err))
                                       (default (JStr "") (dict_get "message" err)))) /\
  _pending_commands (self st') !! k = None /\
  (forall j, j <> k -> futures st' !! j = futures st !! j) /\
  _recv_task (self st') = Some true.
Proof.
  intros Htask Hid Herr Hslot Hfut st'. unfold st', receive. rewrite Htask.
  rewrite (handle_message_pending st k kvs Hid Hslot Hfut), Herr. simpl.
  split; [by rewrite lookup_insert_eq|]. split; [by rewrite lookup_delete_eq|].
  split; [|done]. intros j Hj. by rewrite lookup_insert_ne.
Qed.

Lemma error_reply_fails_its_own_call_witness :
  futures (receive (Message (JDict [("id", JInt 1); ("result", JStr "ok");
                                    ("error", JDict [("message", JStr "no such method")])]))
             (send_command "Nope.nope" None (connected page_a)).1) !! 1 =
    Some (FException (CDPProtocolError (JInt (-1)) (JStr "no such method"))).
Proof.
  refine (proj1 (error_reply_fails_its_own_call
    (send_command "Nope.nope" None (connected page_a)).1 1
    [("id", JInt 1); ("result", JStr "ok");
     ("error", JDict [("message", JStr "no such method")])]
    [("message", JStr "no such method")] _ _ _ _ _)); by vm_compute.
Defined.

(** X3. A reply whose id has no slot in the pending table -- an unknown id,
    or the late reply to a call that has already timed out -- changes
    nothing at all: no future, no slot, no event. *)
Theorem unmatched_reply_changes_nothing (st : state) (k : Z)
    (kvs : list (string * json)) :
  dict_get "id" kvs = Some (JInt k) ->
  _pending_commands (self st) !! k = None ->
  receive (Message (JDict kvs)) st = st /\
  (forall method deadline,
     awaited st !! k = Some (method, deadline) ->
     futures st !! k = Some FPending -> deadline <= clock st ->
     receive (Message (JDict kvs)) (timeout k st).1 = (timeout k st).1).
Proof.
  assert (Hgen : forall st', _pending_commands (self st') !! k = None ->
                   dict_get "id" kvs = Some (JInt k) ->
                   receive (Message (JDict kvs)) st' = st').
  { intros st' Hnone Hid. unfold receive.
    destruct (_recv_task (self st')) as [[|]|]; try done.
    unfold handle_message. rewrite (py_in_dict _ _ _ Hid).
    unfold py_getitem. rewrite Hid. simpl int_key. cbn [mbind option_bind].
    rewrite Hnone, (delete_id _ _ Hnone), set_pending_same. done. }
  intros Hid Hnone. split; [by apply Hgen|].
  intros method deadline Haw Hfut Hdue.
  destruct (timeout_fires st k method deadline Haw Hfut Hdue) as (_ & Hpopped & _).
  by apply Hgen.
Qed.

Lemma unmatched_reply_changes_nothing_witness :
  receive (Message unmatched_reply) (connected page_a) = connected page_a.
Proof.
  refine (proj1 (unmatched_reply_changes_nothing (connected page_a) 7
    [("id", JInt 7); ("result", JDict [])] _ _)); by vm_compute.
Defined.

Lemma receive_loop_not_running (frames : list incoming) :
  forall st, _recv_task (self st) <> Some true -> receive_loop frames st = st.
Proof.
  induction frames as [|i rest IH]; intros st Htask; [done|].
  unfold receive_loop in *. simpl.
  assert (Hsame : receive i st = st).
  { unfold receive. by destruct (_recv_task (self st)) as [[|]|]. }
  rewrite Hsame. by apply IH.
Qed.

(** X4. One frame whose handling raises ends the receive loop for good: a
    frame that does not decode, or a message on which the handler raises
    (such as a JSON number, where the ["id" in message] test is a
    [TypeError]), makes the loop return, and no later delivery is read: no
    later reply settles a call and no later event is queued. *)
Theorem receive_loop_ends_at_first_failure (st : state) (i : incoming)
    (frames : list incoming) (n : nat) :
  _recv_task (self st) = Some true ->
  i = Malformed \/
    (exists message e, i = Message message /\ (handle_message message st).2 = Some e) ->
  receive_loop (i :: frames) st = receive i st /\
  _recv_task (self (receive i st)) = Some false /\
  (stream_events n (receive_loop (i :: frames) st)).1 =
    take n (_event_queue (self (receive i st))).
Proof.
  intros Htask Hfail.
  assert (Hdead : _recv_task (self (receive i st)) = Some false).
  { unfold receive. rewrite Htask.
    destruct Hfail as [-> | (message & e & -> & He)]; [done|].
    destruct (handle_message message st) as [st' [e'|]]; [done | discriminate He]. }
  assert (Hloop : receive_loop (i :: frames) st = receive i st).
  { change (receive_loop (i :: frames) st) with (receive_loop frames (receive i st)).
    apply receive_loop_not_running. by rewrite Hdead. }
  split; [done|]. split; [done|].
  by rewrite Hloop, stream_events_take.
Qed.

Lemma receive_loop_ends_at_first_failure_witness :
  (stream_events 3
     (receive_loop [Message (JInt 5); Message load_event] (connected page_a))).1 = [].
Proof.
  refine (proj2 (proj2 (receive_loop_ends_at_first_failure (connected page_a)
    (Message (JInt 5)) [Message load_event] 3 _ _))).
  - reflexivity.
  - right. exists (JInt 5), TypeError. split; reflexivity.
Defined.

Lemma set_event_queue_same (st : state) :
  set_event_queue st (_event_queue (self st)) = st.
Proof. by destruct st as [[ws mid pending q task target] fs aw now]. Qed.

Lemma stream_events_state (n : nat) :
  forall st,
    (stream_events n st).2 = set_event_queue st (drop n (_event_queue (self st))).
Proof.
  induction n as [|n IH]; intros st; simpl.
  - by rewrite set_event_queue_same.
  - destruct (_event_queue (self st)) as [|event q] eqn:Hq.
    + simpl. rewrite <- Hq. by rewrite set_event_queue_same.
    + specialize (IH (set_event_queue st q)).
      destruct (stream_events n (set_event_queue st q)) as [events st']. simpl in *.
      by rewrite IH.
Qed.

(** X5. The event stream is a single-consumer queue: what has been yielded
    is gone.  Taking [n] events and then [m] more yields the same events as
    taking [n + m] at once, the queue is left with the events after the
    yielded ones, and consuming touches nothing else in the session. *)
Theorem stream_events_consumes (n m : nat) (st : state) :
  (stream_events (n + m) st).1 =
    (stream_events n st).1 ++ (stream_events m (stream_events n st).2).1 /\
  (stream_events n st).2 = set_event_queue st (drop n (_event_queue (self st))) /\
  length (stream_events n st).1 = (n `min` length (_event_queue (self st)))%nat.
Proof.
  split; [|split].
  - rewrite !stream_events_take, stream_events_state. simpl.
    by rewrite take_take_drop.
  - apply stream_events_state.
  - rewrite stream_events_take. apply length_take.
Qed.

Lemma counter_step (st : state) (a : action) :
  _message_id (self st) <= _message_id (self (step st a).1).
Proof.
  destruct a as [method params|i|k|dt| |].
  - simpl. destruct (_ws (self st)) as [ws|] eqn:Hws.
    + destruct (send_command_connected method params st ws Hws) as (Hid & _).
      destruct (send_command method params st). simpl in *. lia.
    + rewrite (send_command_without_ws method params st Hws). simpl. lia.
  - pose proof (ev_counter _ _ (evolves_step st (AReceive i) ltac:(done))). lia.
  - pose proof (ev_counter _ _ (evolves_step st (ATimeout k) ltac:(done))). lia.
  - pose proof (ev_counter _ _ (evolves_step st (ATick dt) ltac:(done))). lia.
  - pose proof (ev_counter _ _ (evolves_step st ADisconnect ltac:(done))). lia.
  - pose proof (ev_counter _ _ (evolves_step st ANextEvent ltac:(done))). lia.
Qed.

Lemma counter_run (acts : list action) :
  forall st, _message_id (self st) <= _message_id (self (run st acts)).
Proof.
  induction acts as [|a rest IH]; intros st; simpl; [lia|].
  pose proof (counter_step st a). pose proof (IH (step st a).1). lia.
Qed.

Lemma send_command_suspended (method : string) (params : option (list (string * json)))
    (st : state) (k : Z) :
  (send_command method params st).2 = Suspended k ->
  k = _message_id (self st) + 1 /\
  _message_id (self (send_command method params st).1) = k.
Proof.
  intros Hk. destruct (_ws (self st)) as [ws|] eqn:Hws.
  - destruct (send_command_connected method params st ws Hws)
      as (Hid & _ & _ & _ & _ & _ & Haw).
    destruct (closed ws); destruct Haw as [_ Hout]; rewrite Hout in Hk; [done|].
    injection Hk as <-. by rewrite Hid.
  - by rewrite (send_command_without_ws method params st Hws) in Hk.
Qed.

(** X7. Message ids are issued in strictly increasing order and never
    reused: of two calls that suspend on the same session, the later one
    has the larger id, whatever happened in between -- replies, timeouts,
    other calls, a disconnect. *)
Theorem message_ids_strictly_increase (st : state) (between : list action)
    (method1 method2 : string) (params1 params2 : option (list (string * json)))
    (k1 k2 : Z) :
  (send_command method1 params1 st).2 = Suspended k1 ->
  (send_command method2 params2
     (run (send_command method1 params1 st).1 between)).2 = Suspended k2 ->
  k1 < k2 /\ k1 = _message_id (self st) + 1.
Proof.
  intros H1 H2.
  destruct (send_command_suspended _ _ _ _ H1) as [-> Hc1].
  destruct (send_command_suspended _ _ _ _ H2) as [-> _].
  pose proof (counter_run between (send_command method1 params1 st).1). lia.
Qed.

Lemma message_ids_strictly_increase_witness :
  1 < 2 /\ 1 = _message_id (self (connected page_a)) + 1.
Proof.
  refine (message_ids_strictly_increase (connected page_a)
    [AReceive (Message unmatched_reply); ATick 3]
    "Runtime.enable" "Log.enable" None None 1 2 _ _); by vm_compute.
Defined.

Lemma increasing_up_to_weaken (bound bound' : Z) (l : list Z) :
  bound <= bound' -> increasing_up_to bound l -> increasing_up_to bound' l.
Proof.
  intros Hle. induction l as [|k rest IH]; simpl; [done|].
  intros (Hk & Hrest & Hnext). repeat split; [lia | by apply IH | done].
Qed.

Lemma increasing_up_to_snoc (bound : Z) (l : list Z) :
  increasing_up_to bound l -> increasing_up_to (bound + 1) (l ++ [bound + 1]).
Proof.
  induction l as [|k rest IH]; simpl; [intros _; repeat split; lia|].
  intros (Hk & Hrest & Hnext). split; [lia|]. split; [by apply IH|].
  destruct rest as [|k' rest']; simpl; [lia | done].
Qed.

Lemma handle_message_ws (message : json) (st : state) :
  _ws (self (handle_message message st).1) = _ws (self st).
Proof.
  unfold handle_message.
  destruct (py_in "id" message) as [[|]|]; simpl; [|done|done].
  destruct (py_getitem "id" message) as [msg_id|]; [|done].
  destruct (int_key msg_id) as [key|]; [|done].
  set (st1 := match key with
              | Some k => set_pending st (delete k (_pending_commands (self st)))
              | None => st
              end).
  assert (H1 : _ws (self st1) = _ws (self st)) by (by destruct key).
  destruct (key ≫= _) as [ref|]; [|exact H1].
  destruct (futures st1 !! ref) as [[| | |]|]; try exact H1.
  destruct (py_in "error" message) as [[|]|]; try exact H1.
  - destruct (py_getitem "error" message) as [err|]; [|exact H1].
    destruct (py_get "code" _ err) as [code|]; [|exact H1].
    destruct (py_get "message" _ err) as [msg|]; exact H1.
  - destruct (py_get "result" _ message) as [r|]; exact H1.
Qed.

Lemma sent_in_order_step (st : state) (a : action) :
  sent_in_order st -> sent_in_order (step st a).1.
Proof.
  unfold sent_in_order. intros Hsent.
  destruct a as [method params|i|k|dt| |]; simpl.
  - unfold send_command. destruct (_ws (self st)) as [ws|] eqn:Hws; [|simpl; by rewrite Hws].
    destruct Hsent as [Hlen Hinc]. destruct (closed ws); simpl.
    + split; [done|]. by apply (increasing_up_to_weaken (_message_id (self st))); [lia|].
    + unfold sent_ids in *. simpl. rewrite omap_app, !length_app. simpl.
      split; [by rewrite Hlen|]. by apply increasing_up_to_snoc.
  - unfold receive. destruct (_recv_task (self st)) as [[|]|]; try done.
    destruct i as [message| |]; simpl.
    + pose proof (handle_message_ws message st) as Hws.
      pose proof (ev_counter _ _ (evolves_handle_message message st)) as Hc.
      destruct (handle_message message st) as [st' [e|]]; simpl in *;
        by rewrite Hws, Hc.
    + done.
    + by destruct (_ws (self st)).
  - pose proof (evolves_timeout k st) as Hev. unfold timeout in *.
    destruct (awaited st !! k) as [[method deadline]|]; [|done].
    destruct (futures st !! k) as [[| | |]|]; try done.
    by case_bool_decide.
  - done.
  - done.
  - by destruct (_event_queue (self st)).
Qed.

(** X8. On every state a freshly connected session reaches, the messages
    written to the channel each carry an integer id, and these ids increase
    strictly in the order of writing and never exceed the message-id
    counter: no two requests on the wire share an id. *)
Theorem sent_messages_have_increasing_ids (target : CDPTarget.t) (acts : list action) :
  match _ws (self (run (connected target) acts)) with
  | Some ws =>
    length (sent_ids ws) = length (sent ws) /\
    increasing_up_to (_message_id (self (run (connected target) acts))) (sent_ids ws)
  | None => True
  end.
Proof.
  change (sent_in_order (run (connected target) acts)).
  assert (Hgen : forall acts st, sent_in_order st -> sent_in_order (run st acts)).
  { clear. induction acts as [|a rest IH]; intros st H; simpl; [done|].
    by apply IH, sent_in_order_step. }
  apply Hgen. unfold sent_in_order. simpl. done.
Qed.

(** X9. [disconnect] neither resets the message-id counter nor drains the
    event queue, and it forgets no future.  After [disconnect] a call fails
    at once with "Not connected"; after a reconnect the next call suspends
    under the next id, so an id of the old connection is never issued again
    and the outcome of every other call is what it was; and the events
    queued on the old connection are the first ones the stream yields on
    the new one. *)
Theorem reconnect_keeps_counter_and_queue (st : state) (target : CDPTarget.t)
    (method : string) (params : option (list (string * json))) :
  let st' := connect target (disconnect st) in
  send_command method params (disconnect st) =
    (disconnect st, SendRaised (CDPConnectionError "Not connected to any target")) /\
  (send_command method params st').2 = Suspended (_message_id (self st) + 1) /\
  (forall k, k <> _message_id (self st) + 1 ->
     completion k (send_command method params st').1 = completion k st) /\
  (forall n, (stream_events n st').1 = take n (_event_queue (self st))).
Proof.
  intros st'. split; [done|]. split; [done|]. split.
  - intros k Hk. unfold completion. simpl. by rewrite !lookup_insert_ne.
  - intros n. by rewrite stream_events_take.
Qed.

Lemma reconnect_keeps_counter_and_queue_witness :
  completion 1
    (send_command "Log.enable" None
       (connect worker_b
          (disconnect
             (receive (Message (JDict [("id", JInt 1); ("result", JStr "ok")]))
                (send_command "Page.enable" None (connected page_a)).1)))).1 =
    Some (Ok (JStr "ok")).
Proof.
  rewrite (proj1 (proj2 (proj2 (reconnect_keeps_counter_and_queue
    (receive (Message (JDict [("id", JInt 1); ("result", JStr "ok")]))
       (send_command "Page.enable" None (connected page_a)).1)
    worker_b "Log.enable" None))) 1); by vm_compute.
Defined.

(** ** Further properties of the network correlator *)

Ltac case_network_event :=
  unfold network_event, from_request_will_be_sent, from_response_received,
    from_loading_failed;
  repeat match goal with
         | |- context [if ?b then _ else _] => destruct b eqn:?
         | |- context [match _parse_cdp_timestamp ?t with _ => _ end] =>
           destruct (_parse_cdp_timestamp t) eqn:?
         end.

Lemma network_event_request_table opts ti (pending : gmap string request_info)
    (p : Params) :
  filtered_out (resource_types opts) (default "" (type p)) = false ->
  (network_event opts ti pending
     {| method := Some "Network.requestWillBeSent"; params := Some p |}).1 =
    <[default "" (requestId p) :=
        {| info_url := default "" (rq_url (default no_request (request p)));
           info_method := default "GET" (rq_method (default no_request (request p)));
           info_type := default "" (type p);
           info_frame_id := frameId p |}]> pending.
Proof.
  intros Hpass. unfold network_event.
  cbn [method params from_option id String.eqb Ascii.eqb Bool.eqb].
  rewrite Hpass. destruct (include_requests opts); [|done].
  by destruct (from_request_will_be_sent p ti).
Qed.

(** X10. A [Network.loadingFailed] for a request that is in the pending
    table yields a failed event that recalls the request: its url, its
    method (["GET"] when the request named none) and its frame id come from
    the recorded request, the error text and resource type from the failure
    itself; and the entry is removed from the table.  Both timestamps are
    absent or instants that a [datetime] can hold. *)
Theorem stream_network_failure_recalls_request (ti : option TargetInfo)
    (pending : gmap string request_info) (p_req p : Params) :
  in_datetime_range (timestamp p_req) -> in_datetime_range (timestamp p) ->
  requestId p = requestId p_req ->
  let request := default no_request (request p_req) in
  exists req,
    from_request_will_be_sent p_req ti = Ok req /\
    stream_network_from no_filters ti
      [ {| method := Some "Network.requestWillBeSent"; params := Some p_req |};
        loading_failed p ] pending =
    ([ req;
       {| WatchEvent.ts := instant (timestamp p);
          WatchEvent.kind := FAILED;
          WatchEvent.url := default "" (rq_url request);
          WatchEvent.method := Some (default "GET" (rq_method request));
          WatchEvent.status := None;
          WatchEvent.resource_type := type p;
          WatchEvent.redirect_url := None;
          WatchEvent.element := None;
          WatchEvent.target := ti;
          WatchEvent.request_id := requestId p;
          WatchEvent.error_text := errorText p;
          WatchEvent.mime_type := None;
          WatchEvent.frame_id := frameId p_req |} ],
     delete (default "" (requestId p_req)) pending, None).
Proof.
  intros Hreq Hfail Hid request.
  unfold stream_network_from, network_event, loading_failed, from_loading_failed,
    from_request_will_be_sent.
  cbn [method params from_option id String.eqb Ascii.eqb Bool.eqb].
  unfold no_filters, filtered_out.
  cbn [resource_types include_requests include_failures].
  rewrite (parse_cdp_timestamp_in_range _ Hreq), (parse_cdp_timestamp_in_range _ Hfail).
  eexists. split; [reflexivity|].
  rewrite Hid, lookup_insert_eq, delete_insert_eq. reflexivity.
Qed.

Lemma stream_network_failure_recalls_request_witness :
  map WatchEvent.url
    (stream_network_from no_filters None
       [ request_will_be_sent "R" "http://x/a";
         loading_failed
           {| requestId := Some "R"; type := Some "Document"; request := None;
              response := None; redirectResponse := None; frameId := None;
              timestamp := Some 3; errorText := Some "net::ERR_ABORTED" |} ] ∅).1.1 =
    ["http://x/a"; "http://x/a"].
Proof.
  destruct (stream_network_failure_recalls_request None ∅
    {| requestId := Some "R"; type := Some "Document";
       request := Some {| rq_url := Some "http://x/a"; rq_method := Some "GET" |};
       response := None; redirectResponse := None; frameId := Some "main";
       timestamp := Some 1; errorText := None |}
    {| requestId := Some "R"; type := Some "Document"; request := None;
       response := None; redirectResponse := None; frameId := None;
       timestamp := Some 3; errorText := Some "net::ERR_ABORTED" |})
    as (req & Hreq & Hrun).
  - intros t [= <-]. by vm_compute.
  - intros t [= <-]. by vm_compute.
  - reflexivity.
  - unfold request_will_be_sent. rewrite Hrun.
    vm_compute in Hreq. injection Hreq as <-. reflexivity.
Defined.

Lemma network_event_other_id opts ti (pending : gmap string request_info)
    (event : Event) (R : string) :
  default "" (requestId (default no_params (params event))) <> R ->
  (network_event opts ti pending event).1 !! R = pending !! R.
Proof.
  intros Hne. case_network_event; simpl;
    rewrite ?lookup_insert_ne, ?lookup_delete_ne by done; done.
Qed.

Lemma stream_network_from_other_ids opts ti (events : list Event) (R : string) :
  Forall (fun event => default "" (requestId (default no_params (params event))) <> R)
         events ->
  forall pending,
    (stream_network_from opts ti events pending).1.2 !! R = pending !! R.
Proof.
  induction 1 as [|event rest Hevent _ IH]; intros pending; simpl; [done|].
  pose proof (network_event_other_id opts ti pending event R Hevent) as Hstep.
  destruct (network_event opts ti pending event) as [pending' [yielded|e]]; [|done].
  specialize (IH pending').
  destruct (stream_network_from opts ti rest pending') as [[later final] raised].
  simpl in *. by rewrite IH.
Qed.

(** X11. The pending table is keyed by request id and entries do not
    interfere: an event about another request id leaves the entry of [R]
    as it is.  So a request that passes the type filter and is never
    answered stays in the table through any number of events about other
    requests: nothing evicts it. *)
Theorem stream_network_unanswered_request_stays opts (ti : option TargetInfo)
    (pending : gmap string request_info) (p : Params) (events : list Event) :
  filtered_out (resource_types opts) (default "" (type p)) = false ->
  Forall (fun event =>
            default "" (requestId (default no_params (params event))) <>
            default "" (requestId p)) events ->
  (stream_network_from opts ti
     ({| method := Some "Network.requestWillBeSent"; params := Some p |} :: events)
     pending).1.2 !! default "" (requestId p) =
    Some {| info_url := default "" (rq_url (default no_request (request p)));
            info_method := default "GET" (rq_method (default no_request (request p)));
            info_type := default "" (type p);
            info_frame_id := frameId p |}.
Proof.
  intros Hpass Hothers.
  pose proof (network_event_request_table opts ti pending p Hpass) as Hstep.
  cbn [stream_network_from].
  destruct (network_event opts ti pending _) as [pending' [yielded|e]];
    simpl in Hstep; subst pending'.
  - pose proof (stream_network_from_other_ids opts ti events _ Hothers
                  (<[default "" (requestId p) :=
                       {| info_url := default "" (rq_url (default no_request (request p)));
                          info_method :=
                            default "GET" (rq_method (default no_request (request p)));
                          info_type := default "" (type p);
                          info_frame_id := frameId p |}]> pending)) as Hrest.
    destruct (stream_network_from opts ti events _) as [[later final] raised].
    cbn [fst snd] in *. rewrite Hrest. apply lookup_insert_eq.
  - cbn [fst snd]. apply lookup_insert_eq.
Qed.

Lemma stream_network_unanswered_request_stays_witness :
  is_Some ((stream_network_from no_filters None
              [ request_will_be_sent "R" "http://x/a";
                request_will_be_sent "S" "http://x/b";
                response_received "S" 200 "http://x/b" ] ∅).1.2 !! "R").
Proof.
  eexists.
  refine (stream_network_unanswered_request_stays no_filters None ∅
    {| requestId := Some "R"; type := Some "Document";
       request := Some {| rq_url := Some "http://x/a"; rq_method := Some "GET" |};
       response := None; redirectResponse := None; frameId := Some "main";
       timestamp := Some 1; errorText := None |}
    [ request_will_be_sent "S" "http://x/b"; response_received "S" 200 "http://x/b" ]
    _ _).
  - reflexivity.
  - repeat constructor; by vm_compute.
Defined.

(** X12. The two filters treat the table differently.  A response that
    fails the status filter or the type filter is ignored altogether: no
    event, and the pending entry stays.  A failure that fails the type
    filter yields no event either, but its pending entry has already been
    popped. *)
Theorem stream_network_filtered_events opts (ti : option TargetInfo)
    (pending : gmap string request_info) (p : Params) :
  (filtered_out (status_filter opts)
     (default 0 (rs_status (default no_response (response p)))) = true \/
   filtered_out (resource_types opts) (default "" (type p)) = true ->
   network_event opts ti pending
     {| method := Some "Network.responseReceived"; params := Some p |} =
     (pending, Ok [])) /\
  (filtered_out (resource_types opts) (default "" (type p)) = true ->
   network_event opts ti pending (loading_failed p) =
     (delete (default "" (requestId p)) pending, Ok [])).
Proof.
  split.
  - intros Hfiltered. unfold network_event.
    cbn [method params from_option id String.eqb Ascii.eqb Bool.eqb].
    destruct (filtered_out (status_filter opts) _); [done|].
    destruct Hfiltered as [? | ->]; done.
  - intros Hfiltered. unfold network_event, loading_failed.
    cbn [method params from_option id String.eqb Ascii.eqb Bool.eqb].
    by rewrite Hfiltered.
Qed.

Lemma stream_network_filtered_events_witness :
  network_event
    {| include_requests := true; include_responses := true; include_failures := true;
       resource_types := None; status_filter := Some {[404]} |}
    None ∅ (response_received "R" 200 "http://x/a") = (∅, Ok []).
Proof.
  refine (proj1 (stream_network_filtered_events _ None ∅
    {| requestId := Some "R"; type := Some "Document"; request := None;
       response := Some {| rs_url := Some "http://x/a"; rs_status := Some 200;
                           rs_mimeType := Some "text/html"; rs_other_keys := true |};
       redirectResponse := None; frameId := Some "main";
       timestamp := Some 2; errorText := None |}) _).
  left. by vm_compute.
Defined.

Lemma network_event_table_by_filters opts opts' ti (pending : gmap string request_info)
    (event : Event) (ys ys' : list WatchEvent.t) :
  resource_types opts = resource_types opts' ->
  status_filter opts = status_filter opts' ->
  (network_event opts ti pending event).2 = Ok ys ->
  (network_event opts' ti pending event).2 = Ok ys' ->
  (network_event opts ti pending event).1 = (network_event opts' ti pending event).1.
Proof.
  intros Htypes Hstatus. unfold network_event. rewrite Htypes, Hstatus.
  destruct (String.eqb _ "Network.requestWillBeSent").
  { destruct (filtered_out _ _); [done|].
    destruct (include_requests opts), (include_requests opts');
      try done; by destruct (from_request_will_be_sent _ _). }
  destruct (String.eqb _ "Network.responseReceived").
  { destruct (filtered_out _ _); [done|]. destruct (filtered_out _ _); [done|].
    destruct (include_responses opts), (include_responses opts');
      try done; by destruct (from_response_received _ _). }
  destruct (String.eqb _ "Network.loadingFailed"); [|done].
  destruct (filtered_out _ _); [done|].
  destruct (include_failures opts), (include_failures opts');
    try done; by destruct (from_loading_failed _ _).
Qed.

Lemma network_event_nothing_included opts ti (pending : gmap string request_info)
    (event : Event) :
  include_requests opts = false -> include_responses opts = false ->
  include_failures opts = false ->
  (network_event opts ti pending event).2 = Ok [].
Proof.
  intros Hreq Hresp Hfail. unfold network_event. rewrite Hreq, Hresp, Hfail.
  destruct (String.eqb _ "Network.requestWillBeSent").
  { by destruct (filtered_out _ _). }
  destruct (String.eqb _ "Network.responseReceived").
  { destruct (filtered_out _ _); [done|]. by destruct (filtered_out _ _). }
  destruct (String.eqb _ "Network.loadingFailed"); [|done].
  by destruct (filtered_out _ _).
Qed.

(** X13. The [include_requests], [include_responses] and
    [include_failures] switches choose what is yielded, and an event is
    built only when its switch is on.  With all three off nothing is
    yielded and the correlator never raises, whatever the timestamps are.
    Two runs with the same filters that do not raise leave the same pending
    table, whatever their switches are; and no run raises on events whose
    timestamps are absent or instants that a [datetime] can hold. *)
Theorem stream_network_include_switches opts opts' (ti : option TargetInfo)
    (events : list Event) (pending : gmap string request_info) :
  resource_types opts = resource_types opts' ->
  status_filter opts = status_filter opts' ->
  (include_requests opts = false -> include_responses opts = false ->
   include_failures opts = false ->
   (stream_network_from opts ti events pending).1.1 = [] /\
   (stream_network_from opts ti events pending).2 = None) /\
  ((stream_network_from opts ti events pending).2 = None ->
   (stream_network_from opts' ti events pending).2 = None ->
   (stream_network_from opts ti events pending).1.2 =
     (stream_network_from opts' ti events pending).1.2) /\
  (Forall event_in_range events ->
   (stream_network_from opts ti events pending).2 = None).
Proof.
  intros Htypes Hstatus. split; [|split].
  - intros Hreq Hresp Hfail.
    revert pending. induction events as [|event rest IH]; intros pending; simpl; [done|].
    pose proof (network_event_nothing_included opts ti pending event Hreq Hresp Hfail)
      as Hstep.
    destruct (network_event opts ti pending event) as [p1 y1].
    simpl in Hstep. subst y1. specialize (IH p1).
    by destruct (stream_network_from opts ti rest p1) as [[l1 f1] r1].
  - revert pending. induction events as [|event rest IH]; intros pending; simpl; [done|].
    pose proof (network_event_table_by_filters opts opts' ti pending event) as Hstep.
    destruct (network_event opts ti pending event) as [p1 [y1|e1]];
      destruct (network_event opts' ti pending event) as [p2 [y2|e2]]; try done.
    specialize (Hstep y1 y2 Htypes Hstatus eq_refl eq_refl). simpl in Hstep. subst p2.
    specialize (IH p1).
    destruct (stream_network_from opts ti rest p1) as [[l1 f1] r1].
    by destruct (stream_network_from opts' ti rest p1) as [[l2 f2] r2].
  - intros Hrange. by apply stream_network_from_in_range.
Qed.

Lemma stream_network_include_switches_witness :
  (stream_network_from
     {| include_requests := false; include_responses := false;
        include_failures := false; resource_types := None; status_filter := None |}
     None [request_will_be_sent "R" "http://x/a"] ∅).1.2 =
  (stream_network_from no_filters None [request_will_be_sent "R" "http://x/a"] ∅).1.2.
Proof.
  refine (proj1 (proj2 (stream_network_include_switches _ no_filters None
    [request_will_be_sent "R" "http://x/a"] ∅ _ _)) _ _); reflexivity.
Defined.

Lemma filtered_out_empty `{Countable A} (x : A) :
  filtered_out (Some (∅ : gset A)) x = false.
Proof. unfold filtered_out. by rewrite bool_decide_eq_false_2 by (intros Hne; by apply Hne). Qed.

(** X14. An empty filter set is no filter: [resource_types] or
    [status_filter] given as the empty set behaves exactly as [None],
    instead of rejecting every event. *)
Theorem stream_network_empty_filter_sets (ti : option TargetInfo)
    (events : list Event) (pending : gmap string request_info) (req resp fail : bool) :
  stream_network_from
    {| include_requests := req; include_responses := resp; include_failures := fail;
       resource_types := Some ∅; status_filter := Some ∅ |} ti events pending =
  stream_network_from
    {| include_requests := req; include_responses := resp; include_failures := fail;
       resource_types := None; status_filter := None |} ti events pending.
Proof.
  revert pending. induction events as [|event rest IH]; intros pending; simpl; [done|].
  assert (Hstep : forall opts_set opts_none,
            opts_set = {| include_requests := req; include_responses := resp;
                          include_failures := fail;
                          resource_types := Some ∅; status_filter := Some ∅ |} ->
            opts_none = {| include_requests := req; include_responses := resp;
                           include_failures := fail;
                           resource_types := None; status_filter := None |} ->
            network_event opts_set ti pending event =
              network_event opts_none ti pending event).
  { intros ? ? -> ->. unfold network_event.
    cbn [resource_types status_filter include_requests include_responses
         include_failures].
    rewrite !filtered_out_empty. reflexivity. }
  rewrite (Hstep _ _ eq_refl eq_refl).
  destruct (network_event _ ti pending event) as [p1 [y1|e1]]; [|done].
  by rewrite IH.
Qed.

Lemma network_event_yields opts ti (pending : gmap string request_info) (event : Event)
    (ys : list WatchEvent.t) :
  (network_event opts ti pending event).2 = Ok ys ->
  (length ys <= 1)%nat /\
  Forall (fun e => network_kind (WatchEvent.kind e) = true) ys.
Proof.
  case_network_event; simpl; intros [= <-]; simpl;
    (split; [lia | repeat constructor]).
Qed.

(** X15. The correlator yields at most one watch event per input event, and
    only network kinds: request, redirect, response or failed -- never a
    click, a message or a navigation, and nothing for an event of any other
    method. *)
Theorem stream_network_yields_network_kinds opts (ti : option TargetInfo)
    (events : list Event) (pending : gmap string request_info) :
  (length (stream_network_from opts ti events pending).1.1 <= length events)%nat /\
  Forall (fun e => network_kind (WatchEvent.kind e) = true)
         (stream_network_from opts ti events pending).1.1 /\
  (forall event,
     default "" (method event) <> "Network.requestWillBeSent" ->
     default "" (method event) <> "Network.responseReceived" ->
     default "" (method event) <> "Network.loadingFailed" ->
     network_event opts ti pending event = (pending, Ok [])).
Proof.
  split; [|split].
  - revert pending. induction events as [|event rest IH]; intros pending; simpl; [lia|].
    pose proof (network_event_yields opts ti pending event) as Hstep.
    destruct (network_event opts ti pending event) as [p1 [y1|e1]]; [|simpl; lia].
    destruct (Hstep y1 eq_refl) as [Hlen _]. specialize (IH p1).
    destruct (stream_network_from opts ti rest p1) as [[l1 f1] r1]. simpl in *.
    rewrite length_app. lia.
  - revert pending. induction events as [|event rest IH]; intros pending; simpl;
      [constructor|].
    pose proof (network_event_yields opts ti pending event) as Hstep.
    destruct (network_event opts ti pending event) as [p1 [y1|e1]]; [|constructor].
    destruct (Hstep y1 eq_refl) as [_ Hkinds]. specialize (IH p1).
    destruct (stream_network_from opts ti rest p1) as [[l1 f1] r1]. simpl in *.
    by apply Forall_app.
  - intros event H1 H2 H3. unfold network_event.
    rewrite (proj2 (String.eqb_neq _ _) H1), (proj2 (String.eqb_neq _ _) H2),
      (proj2 (String.eqb_neq _ _) H3). done.
Qed.

Lemma network_event_new_entry opts ti (pending : gmap string request_info)
    (event : Event) (R : string) :
  is_Some ((network_event opts ti pending event).1 !! R) ->
  is_Some (pending !! R) \/
  method event = Some "Network.requestWillBeSent" /\
  default "" (requestId (default no_params (params event))) = R.
Proof.
  unfold network_event.
  destruct (String.eqb_spec (default "" (method event)) "Network.requestWillBeSent")
    as [Hm|_].
  { destruct (filtered_out _ _); simpl; [by left|].
    assert (Hinsert : forall info,
              is_Some (<[default "" (requestId (default no_params (params event))) :=
                           info]> pending !! R) ->
              is_Some (pending !! R) \/
              method event = Some "Network.requestWillBeSent" /\
              default "" (requestId (default no_params (params event))) = R).
    { intros info' [info [[<- _] | [_ Hold]]%lookup_insert_Some]; [|by left; eauto].
      right. split; [|done]. destruct (method event) as [m|]; simpl in Hm; by subst. }
    destruct (include_requests opts); [|by apply Hinsert].
    destruct (from_request_will_be_sent _ _); by apply Hinsert. }
  assert (Hdelete : forall k,
            is_Some (delete k pending !! R) -> is_Some (pending !! R)).
  { intros k [info [_ Hold]%lookup_delete_Some]. eauto. }
  destruct (String.eqb _ "Network.responseReceived").
  { destruct (filtered_out _ _); [by left|].
    destruct (filtered_out _ _); simpl; [by left|].
    destruct (include_responses opts).
    - destruct (from_response_received _ _); simpl; [|by left].
      intros ?%Hdelete. by left.
    - simpl. intros ?%Hdelete. by left. }
  destruct (String.eqb _ "Network.loadingFailed"); [|by left].
  destruct (filtered_out _ _); simpl; [intros ?%Hdelete; by left|].
  destruct (include_failures opts); [|simpl; intros ?%Hdelete; by left].
  destruct (from_loading_failed _ _); simpl; intros ?%Hdelete; by left.
Qed.

(** X16. Only requests populate the pending table: an entry that the table
    holds after a run of [stream_network] is keyed by the request id of a
    [Network.requestWillBeSent] event of the input (the empty string when
    that event named no id).  Responses and failures only ever remove
    entries. *)
Theorem stream_network_table_holds_requests opts (ti : option TargetInfo)
    (events : list Event) (R : string) :
  is_Some ((stream_network opts ti events).1.2 !! R) ->
  exists event,
    event ∈ events /\
    method event = Some "Network.requestWillBeSent" /\
    default "" (requestId (default no_params (params event))) = R.
Proof.
  unfold stream_network.
  assert (Hgen : forall pending,
            is_Some ((stream_network_from opts ti events pending).1.2 !! R) ->
            is_Some (pending !! R) \/
            exists event,
              event ∈ events /\
              method event = Some "Network.requestWillBeSent" /\
              default "" (requestId (default no_params (params event))) = R).
  { induction events as [|event rest IH]; intros pending; simpl; [by left|].
    pose proof (network_event_new_entry opts ti pending event R) as Hstep.
    destruct (network_event opts ti pending event) as [p1 [y1|e1]].
    - specialize (IH p1).
      destruct (stream_network_from opts ti rest p1) as [[l1 f1] r1]. simpl in *.
      intros Hfinal. destruct (IH Hfinal) as [Hp1 | (e & He & Hm & Hid)].
      + destruct (Hstep Hp1) as [? | [Hm Hid]]; [by left|].
        right. exists event. split; [by left | done].
      + right. exists e. split; [by right | done].
    - simpl in *. intros Hp1.
      destruct (Hstep Hp1) as [? | [Hm Hid]]; [by left|].
      right. exists event. split; [by left | done]. }
  intros Hfinal. destruct (Hgen ∅ Hfinal) as [[info Hempty] | ?]; [|done].
  by rewrite lookup_empty in Hempty.
Qed.

Lemma stream_network_table_holds_requests_witness :
  exists event,
    event ∈ [request_will_be_sent "R" "http://x/a"] /\
    method event = Some "Network.requestWillBeSent" /\
    default "" (requestId (default no_params (params event))) = "R".
Proof.
  apply (stream_network_table_holds_requests no_filters None
           [request_will_be_sent "R" "http://x/a"] "R").
  eexists. by vm_compute.
Defined.

(** ** Further properties of the log normaliser *)

Ltac case_string_eqb :=
  repeat match goal with
         | |- context [String.eqb ?a ?b] => destruct (String.eqb_spec a b); subst
         end.

(** X17. The level of a console call: [debug] and [trace] are the only
    types mapped to debug, [warn] and [warning] the only ones mapped to
    warn, [error] and [assert] the only ones mapped to error; every other
    type, known or unknown, is info.  The match is exact: ["Error"] or
    ["warn "] are info. *)
Theorem console_type_level (console_type : string) :
  (_map_console_type_to_level console_type = DEBUG <->
     console_type = "debug" \/ console_type = "trace") /\
  (_map_console_type_to_level console_type = WARN <->
     console_type = "warn" \/ console_type = "warning") /\
  (_map_console_type_to_level console_type = ERROR <->
     console_type = "error" \/ console_type = "assert") /\
  (_map_console_type_to_level console_type = INFO <->
     ~ In console_type ["debug"; "trace"; "warn"; "warning"; "error"; "assert"]).
Proof.
  unfold _map_console_type_to_level. cbn [lookup_item].
  case_string_eqb; simpl; repeat split; intros; try done;
    try (intuition (try done; congruence)).
Qed.

(** X18. A browser log entry whose timestamp is absent or an instant that
    a [datetime] can hold becomes a [LogEvent] of kind browser_log with the
    entry's text and no execution context; any other timestamp makes
    [from_log_entry_added] raise.  The level is debug for [verbose], warn
    for [warning], error for [error] and info for anything else, a missing
    level included.  The event has a source location exactly when the
    entry's url is present and non-empty, and then the column is always 0;
    it has a stack exactly when the entry has call frames. *)
Theorem log_entry_normalises (event : EntryAdded) (target : option TargetInfo) :
  let e := default no_log_entry (entry event) in
  (~ in_datetime_range (le_timestamp e) ->
   from_log_entry_added event target = Raise TimestampError) /\
  (in_datetime_range (le_timestamp e) ->
   exists ev,
     from_log_entry_added event target = Ok ev /\
     LogEvent.ts ev = instant (le_timestamp e) /\
     LogEvent.kind ev = BROWSER_LOG /\
     LogEvent.text ev = default "" (le_text e) /\
     LogEvent.execution_context_id ev = None /\
     (LogEvent.level ev = DEBUG <-> le_level e = Some "verbose") /\
     (LogEvent.level ev = WARN <-> le_level e = Some "warning") /\
     (LogEvent.level ev = ERROR <-> le_level e = Some "error") /\
     (LogEvent.source ev = None <-> default "" (le_url e) = "") /\
     (forall loc, LogEvent.source ev = Some loc ->
        sl_url loc = default "" (le_url e) /\
        sl_line loc = default 0 (le_lineNumber e) /\ sl_column loc = 0) /\
     (LogEvent.stack ev = None <->
        default [] (callFrames (default no_stack_trace (le_stackTrace e))) = [])).
Proof.
  intros e. split.
  { intros Hout. unfold from_log_entry_added. fold e.
    by rewrite (parse_cdp_timestamp_out_of_range _ Hout). }
  intros Hrange. unfold from_log_entry_added. fold e.
  rewrite (parse_cdp_timestamp_in_range _ Hrange).
  eexists. split; [reflexivity|].
  cbn [LogEvent.ts LogEvent.kind LogEvent.text LogEvent.execution_context_id
       LogEvent.level LogEvent.source LogEvent.stack].
  split; [done|]. split; [done|]. split; [done|]. split; [done|].
  split; [|split; [|split]].
  - unfold _map_log_level. cbn [lookup_item].
    destruct (le_level e) as [l|]; cbn [from_option id]; [|by vm_compute].
    case_string_eqb; cbn [from_option id]; split; intros ?; by simplify_eq.
  - unfold _map_log_level. cbn [lookup_item].
    destruct (le_level e) as [l|]; cbn [from_option id]; [|by vm_compute].
    case_string_eqb; cbn [from_option id]; split; intros ?; by simplify_eq.
  - unfold _map_log_level. cbn [lookup_item].
    destruct (le_level e) as [l|]; cbn [from_option id]; [|by vm_compute].
    case_string_eqb; cbn [from_option id]; split; intros ?; by simplify_eq.
  - split; [|split].
    + by destruct (default "" (le_url e)).
    + intros loc. destruct (default "" (le_url e)) eqn:Hurl; [done|].
      intros [= <-]. done.
    + by destruct (default [] _).
Qed.

Lemma log_entry_normalises_witness :
  from_log_entry_added
    {| entry := Some {| le_level := Some "warning"; le_text := Some "deprecated";
                        le_url := None; le_lineNumber := None;
                        le_timestamp := Some (2 ^ 63); le_stackTrace := None |} |}
    None = Raise TimestampError.
Proof.
  apply (proj1 (log_entry_normalises
    {| entry := Some {| le_level := Some "warning"; le_text := Some "deprecated";
                        le_url := None; le_lineNumber := None;
                        le_timestamp := Some (2 ^ 63); le_stackTrace := None |} |}
    None)).
  intros Hrange. specialize (Hrange _ eq_refl). vm_compute in Hrange.
  destruct Hrange as [_ Hle]. by apply Hle.
Defined.

(** ** Further properties of the watch events *)

Lemma prefix_cons_inv (c : Ascii.ascii) (s text : string) :
  String.prefix (String c s) text = true ->
  exists rest, text = String c rest /\ String.prefix s rest = true.
Proof.
  destruct text as [|c' rest]; simpl; [done|].
  destruct (Ascii.ascii_dec c c') as [<-|]; [|done]. eauto.
Qed.

Lemma click_or_message (log_event : LogEvent.t) :
  from_click_console log_event = None \/ from_message_console log_event = None.
Proof.
  unfold from_click_console, from_message_console.
  generalize (LogEvent.text log_event). intros text.
  destruct (String.prefix "[DEVLOG_CLICK]" _) eqn:Hclick; [|by left].
  destruct (String.prefix "[DEVLOG_MESSAGE]" _) eqn:Hmessage; [|by right].
  exfalso.
  repeat (apply prefix_cons_inv in Hclick as (? & -> & Hclick)).
  vm_compute in Hmessage. discriminate Hmessage.
Qed.

(** X19. A console text is recognised as a click exactly when it starts
    with the marker ["[DEVLOG_CLICK]"] and as a message exactly when it
    starts with ["[DEVLOG_MESSAGE]"]; no text is both, and the watch event
    keeps the whole text, marker included, as its raw element, with the
    timestamp and target of the log event. *)
Theorem click_and_message_markers (log_event : LogEvent.t) :
  (from_click_console log_event = None \/ from_message_console log_event = None) /\
  (is_Some (from_click_console log_event) <->
     String.prefix "[DEVLOG_CLICK]" (LogEvent.text log_event) = true) /\
  (is_Some (from_message_console log_event) <->
     String.prefix "[DEVLOG_MESSAGE]" (LogEvent.text log_event) = true) /\
  (forall e, from_click_console log_event = Some e \/
             from_message_console log_event = Some e ->
     WatchEvent.element e = Some [("raw", JStr (LogEvent.text log_event))] /\
     WatchEvent.ts e = LogEvent.ts log_event /\
     WatchEvent.target e = LogEvent.target log_event /\
     WatchEvent.url e = "").
Proof.
  split; [apply click_or_message|].
  unfold from_click_console, from_message_console.
  split; [|split].
  - destruct (String.prefix "[DEVLOG_CLICK]" _); split; by intros H.
  - destruct (String.prefix "[DEVLOG_MESSAGE]" _); split; by intros H.
  - intros e [H | H].
    + destruct (String.prefix "[DEVLOG_CLICK]" _); [|done]. by injection H as <-.
    + destruct (String.prefix "[DEVLOG_MESSAGE]" _); [|done]. by injection H as <-.
Qed.

Lemma occurs_app (c : Ascii.ascii) (s1 s2 : string) :
  occurs c (s1 +:+ s2) = occurs c s1 || occurs c s2.
Proof.
  induction s1 as [|c1 s1 IH]; simpl; [done|]. by rewrite IH, orb_assoc.
Qed.

Lemma replace_char_removes (old c : Ascii.ascii) (new s : string) :
  occurs c new = false ->
  occurs c (replace_char old new s) = (negb (Ascii.eqb c old) && occurs c s).
Proof.
  intros Hnew. induction s as [|c' s IH]; simpl.
  - by rewrite andb_false_r.
  - destruct (Ascii.eqb_spec c' old) as [->|Hne].
    + rewrite occurs_app, Hnew, IH. simpl.
      destruct (Ascii.eqb_spec old c) as [->|Hne'].
      * by rewrite Ascii.eqb_refl.
      * done.
    + simpl. rewrite IH.
      destruct (Ascii.eqb_spec c' c) as [->|Hne']; simpl; [|done].
      destruct (Ascii.eqb_spec c old) as [->|]; [done|]. done.
Qed.

Lemma replace_char_absent (old : Ascii.ascii) (new s : string) :
  occurs old s = false -> replace_char old new s = s.
Proof.
  induction s as [|c s IH]; simpl; [done|].
  destruct (Ascii.eqb_spec c old) as [->|Hne]; simpl; [done|].
  intros H. by rewrite IH.
Qed.

(** X20. A TSV line is the clock time, the upper-case level and the text,
    separated by two tab characters.  The text field never contains a tab
    or a line feed, whatever the log text was: tabs become spaces and line
    feeds become a backslash followed by [n]; a text with neither is
    written unchanged. *)
Theorem to_tsv_text_field (strftime_ms : datetime -> string) (ev : LogEvent.t) :
  exists text_escaped,
    to_tsv strftime_ms ev =
      strftime_ms (LogEvent.ts ev) +:+ String tab "" +:+
      level_upper (LogEvent.level ev) +:+ String tab "" +:+ text_escaped /\
    occurs tab text_escaped = false /\
    occurs line_feed text_escaped = false /\
    (occurs tab (LogEvent.text ev) = false ->
     occurs line_feed (LogEvent.text ev) = false ->
     text_escaped = LogEvent.text ev).
Proof.
  eexists. split; [reflexivity|]. split; [|split].
  - rewrite replace_char_removes by done. rewrite replace_char_removes by done.
    by rewrite Ascii.eqb_refl, andb_false_r.
  - rewrite replace_char_removes by done. by rewrite Ascii.eqb_refl.
  - intros Htab Hlf. rewrite (replace_char_absent tab) by done.
    by rewrite replace_char_absent.
Qed.

(** X21. [from_exception_thrown] raises in exactly two situations.  The
    timestamp is present and not an instant that a [datetime] can hold: the
    error is the one of [datetime.fromtimestamp].  Or the timestamp is
    accepted, the exception has no description and its raw value is present
    but not a string (a thrown boolean, number or [null]): the error is the
    validation error of the text field.  No other input makes it raise. *)
Theorem from_exception_thrown_raises_iff (event : ExceptionThrown)
    (target : option TargetInfo) (e : exn) :
  from_exception_thrown event target = Raise e <->
  e = TimestampError /\ ~ in_datetime_range (et_timestamp event) \/
  e = ValidationError "text" /\
  in_datetime_range (et_timestamp event) /\
  description (exception_of event) = None /\
  exists v, value (exception_of event) = Some v /\ forall s, v <> JStr s.
Proof.
  unfold from_exception_thrown. fold (exception_of event). fold (call_frames_of event).
  destruct (in_datetime_range_dec (et_timestamp event)) as [Hrange|Hout].
  2:{ rewrite (parse_cdp_timestamp_out_of_range _ Hout). split.
      - destruct (call_frames_of event); intros [= <-]; by left.
      - intros [[-> _] | (_ & Hrange & _)]; [|done].
        by destruct (call_frames_of event). }
  rewrite (parse_cdp_timestamp_in_range _ Hrange).
  split.
  - intros H. right.
    destruct (description (exception_of event)) as [d|].
    { destruct (call_frames_of event); discriminate H. }
    destruct (value (exception_of event)) as [v|].
    2:{ destruct (call_frames_of event); discriminate H. }
    destruct v as [|b|n|s|l|kvs];
      destruct (call_frames_of event); simpl in H; try discriminate H;
      injection H as <-; (split; [done|]); (split; [done|]); (split; [done|]);
      eexists; (split; [done|]); intros s; discriminate.
  - intros [[_ Hout] | (-> & _ & Hd & v & Hv & Hns)]; [done|]. rewrite Hd, Hv.
    destruct v as [|b|n|s|l|kvs]; try (by destruct (Hns s));
      by destruct (call_frames_of event).
Qed.

(** ** Further properties of the target directory *)

Lemma first_where_Some {A} (p : A -> bool) (l : list A) (x : A) :
  first_where p l = Some x -> x ∈ l /\ p x = true.
Proof.
  induction l as [|y l IH]; simpl; [done|].
  destruct (p y) eqn:Hy.
  - intros [= <-]. split; [by left | done].
  - intros H. destruct (IH H). split; [by right | done].
Qed.

(** X22. [find_target] never invents a target and never returns one that
    fails the selector in force: the result is an element of the directory;
    under an id selector its id is that id; under a URL selector it is a
    page-type target whose url contains the substring; under a title
    selector it is a page-type target whose title contains it. *)
Theorem find_target_sound (targets : list CDPTarget.t)
    (target_id url_filter title_filter : option string) (t : CDPTarget.t) :
  find_target targets target_id url_filter title_filter = Ok t ->
  t ∈ targets /\
  match selector_of target_id url_filter title_filter with
  | ById i => CDPTarget.id t = i
  | ByUrl u => is_page t = true /\ contains u (CDPTarget.url t) = true
  | ByTitle s => is_page t = true /\ contains s (CDPTarget.title t) = true
  | ByDefault => is_page t = true \/ Forall (fun t' => is_page t' = false) targets
  end.
Proof.
  unfold find_target, selector_of.
  destruct targets as [|first rest]; [done|].
  destruct (truthy_given target_id) as [[-> ->]|[-> ->]].
  { destruct (first_where _ _) as [t'|] eqn:Hfound; [|done].
    intros [= ->]. apply first_where_Some in Hfound as [Hin Hid].
    split; [done|]. by apply String.eqb_eq. }
  destruct (truthy_given url_filter) as [[-> ->]|[-> ->]].
  { destruct (first_where _ _) as [t'|] eqn:Hfound; [|done].
    intros [= ->]. apply first_where_Some in Hfound as [Hin Hurl].
    apply list_elem_of_In, filter_In in Hin as [Hin Hpage].
    split; [by apply list_elem_of_In | done]. }
  destruct (truthy_given title_filter) as [[-> ->]|[-> ->]].
  { destruct (first_where _ _) as [t'|] eqn:Hfound; [|done].
    intros [= ->]. apply first_where_Some in Hfound as [Hin Htitle].
    apply list_elem_of_In, filter_In in Hin as [Hin Hpage].
    split; [by apply list_elem_of_In | done]. }
  destruct (List.filter is_page (first :: rest)) as [|page pages] eqn:Hpages.
  - intros [= <-]. split; [by left|]. right.
    apply Forall_forall. intros t' Hin%list_elem_of_In.
    destruct (is_page t') eqn:Hpage; [|done].
    assert (In t' (List.filter is_page (first :: rest))) as Hin'
      by (by apply filter_In).
    by rewrite Hpages in Hin'.
  - intros [= <-].
    assert (In page (List.filter is_page (first :: rest))) as Hin
      by (rewrite Hpages; by left).
    apply filter_In in Hin as [Hin Hpage].
    split; [by apply list_elem_of_In | by left].
Qed.

Lemma find_target_sound_witness :
  page_a ∈ dir_example /\
  is_page page_a = true /\ contains "foo" (CDPTarget.url page_a) = true.
Proof.
  refine (find_target_sound dir_example None (Some "foo") None page_a _).
  reflexivity.
Defined.

Lemma targets_from_json_Found (data : list TargetJson) :
  forall targets, targets_from_json data = Found targets ->
    Forall2 (fun item t => from_json item = Found t) data targets.
Proof.
  induction data as [|item rest IH]; simpl; intros targets.
  - intros [= <-]. constructor.
  - destruct (from_json item) as [t|key] eqn:Hitem; [|done].
    destruct (targets_from_json rest) as [ts|key]; [|done].
    intros [= <-]. constructor; [done | by apply IH].
Qed.

(** X23. Reading the target list: an item becomes a target exactly when it
    has an id and a websocket url, a missing id being reported before a
    missing websocket url; title and url default to the empty string and
    the type defaults to ["page"], so an item without a type key is resolved
    like any page.  The list keeps one target per item, in order, and one
    bad item fails the whole list. *)
Theorem targets_from_json_reads_items (data : list TargetJson) :
  (forall item,
     match from_json item with
     | Found t =>
       tj_id item = Some (CDPTarget.id t) /\
       tj_webSocketDebuggerUrl item = Some (CDPTarget.websocket_url t) /\
       CDPTarget.title t = default "" (tj_title item) /\
       CDPTarget.url t = default "" (tj_url item) /\
       CDPTarget.target_type t = default "page" (tj_type item) /\
       (tj_type item = None -> is_page t = true /\ find_target [t] None None None = Ok t)
     | KeyError key =>
       key = "id" /\ tj_id item = None \/
       key = "webSocketDebuggerUrl" /\ is_Some (tj_id item) /\
         tj_webSocketDebuggerUrl item = None
     end) /\
  match targets_from_json data with
  | Found targets =>
    length targets = length data /\
    Forall2 (fun item t => from_json item = Found t) data targets
  | KeyError key => exists item, item ∈ data /\ from_json item = KeyError key
  end.
Proof.
  split.
  - intros item. unfold from_json.
    destruct (tj_id item) as [i|]; [|by left].
    destruct (tj_webSocketDebuggerUrl item) as [ws|]; [|right; eauto].
    simpl. repeat (split; [done|]). intros Htype.
    unfold is_page, find_target. simpl. rewrite Htype. by vm_compute.
  - destruct (targets_from_json data) as [targets|key] eqn:Hdata.
    + pose proof (targets_from_json_Found data targets Hdata) as Hall.
      split; [symmetry; by eapply Forall2_length | done].
    + revert Hdata. induction data as [|item rest IH]; simpl; [done|].
      destruct (from_json item) as [t|key'] eqn:Hitem.
      * destruct (targets_from_json rest) as [ts|key']; [done|].
        intros [= ->]. destruct (IH eq_refl) as (item' & Hin & Hbad).
        exists item'. split; [by right | done].
      * intros [= ->]. exists item. split; [by left | done].
Qed.

(** ** Further properties of the frame resolver *)

(** X24. A negative index is a Python index: with no URL selector,
    [find_iframe_context] with index [-i] returns the id of the [i]-th
    frame from the end of the flattening when there are at least [i]
    frames, and raises [IndexError] when there are fewer -- it does not
    return [None] there. *)
Theorem find_iframe_context_negative (tree : FrameTree) (b : bool) (i : nat) :
  let frames := flatten_spec tree in
  find_iframe_context tree (blank b) (- Z.of_nat (S i)) =
    if decide (S i <= length frames)%nat
    then Ok (frames !! (length frames - S i)%nat ≫= f_id)
    else Raise IndexError.
Proof.
  intros frames. unfold find_iframe_context.
  replace (truthy (blank b)) with false by (by destruct b).
  rewrite collect_child_frames_flatten. simpl app. fold frames.
  rewrite bool_decide_eq_true_2 by lia.
  unfold py_index. cbv zeta.
  rewrite (bool_decide_eq_true_2 (- Z.of_nat (S i) < 0)) by lia.
  destruct (decide (S i <= length frames)%nat) as [Hle|Hgt].
  - rewrite bool_decide_eq_true_2 by lia.
    replace (Z.to_nat (- Z.of_nat (S i) + Z.of_nat (length frames)))
      with (length frames - S i)%nat by lia.
    destruct (frames !! (length frames - S i)%nat) as [frame|] eqn:Hframe; [done|].
    apply lookup_ge_None in Hframe. lia.
  - rewrite bool_decide_eq_false_2 by lia. done.
Qed.

Lemma descendants_flatten (t : FrameTree) :
  length (flatten_spec t) = descendants t.
Proof.
  induction t as [frame children IH] using FrameTree_children_ind. simpl.
  induction IH as [|child rest Hchild _ IHrest]; simpl; [done|].
  rewrite length_app, IHrest, Hchild. done.
Qed.

(** X25. Flattening keeps every frame below the root exactly once: the
    list collected from a tree has one entry per descendant node -- a
    child without a frame key takes a position too, as an empty frame --
    and collecting into a list that already holds frames appends to it. *)
Theorem collect_child_frames_counts (t : FrameTree) (result : list Frame) :
  length (_collect_child_frames t result) = (length result + descendants t)%nat /\
  take (length result) (_collect_child_frames t result) = result /\
  _collect_child_frames (mkFrameTree None [mkFrameTree None []]) [] = [no_frame].
Proof.
  rewrite collect_child_frames_flatten. split; [|split].
  - by rewrite length_app, descendants_flatten.
  - by rewrite take_app_length.
  - reflexivity.
Qed.

(** ** Properties of console calls, [stream_logs] and [stream_watch] *)

Lemma extract_arg_values_loop_map (args : list ConsoleArg) :
  forall values,
    _extract_arg_values_loop args values = values ++ map arg_value args.
Proof.
  induction args as [|arg rest IH]; intros values; simpl.
  - by rewrite app_nil_r.
  - rewrite IH. by rewrite <- app_assoc.
Qed.

(** X26. A console call is normalised whenever its arguments render and
    its timestamp is absent or an instant that a [datetime] can hold.  It
    raises what the renderer raises, and otherwise the error of
    [datetime.fromtimestamp] when the timestamp is not such an instant;
    nothing else makes it raise.  The event has kind console and no stack;
    its level comes from the call's type, [log] when the type is missing;
    its structured args hold one value per argument, in order -- the raw
    value of a string, number or boolean argument ([None] when it has
    none), [None] for undefined and null, the description otherwise -- and
    its source is the first call frame, when there is one. *)
Theorem console_call_normalises (render : list ConsoleArg -> result string)
    (event : ConsoleCalled) (target : option TargetInfo) :
  let args := default [] (cc_args event) in
  match render args with
  | Raise e => from_console_api_called render event target = Raise e
  | Ok text =>
    (~ in_datetime_range (cc_timestamp event) ->
     from_console_api_called render event target = Raise TimestampError) /\
    (in_datetime_range (cc_timestamp event) ->
     exists ev,
       from_console_api_called render event target = Ok ev /\
       LogEvent.ts ev = instant (cc_timestamp event) /\
       LogEvent.kind ev = CONSOLE /\ LogEvent.text ev = text /\
       LogEvent.stack ev = None /\ LogEvent.target ev = target /\
       LogEvent.level ev = _map_console_type_to_level (default "log" (cc_type event)) /\
       (cc_type event = None -> LogEvent.level ev = INFO) /\
       length (LogEvent.args ev) = length args /\
       (forall i arg, args !! i = Some arg ->
          exists v, LogEvent.args ev !! i = Some v /\
            (a_type arg = Some "string" \/ a_type arg = Some "number" \/
             a_type arg = Some "boolean" -> v = default JNull (a_value arg)) /\
            (a_type arg = Some "undefined" -> v = JNull) /\
            (a_type arg = Some "object" -> a_subtype arg = Some "null" -> v = JNull)) /\
       LogEvent.source ev =
         location_of <$>
           head (default [] (callFrames (default no_stack_trace (cc_stackTrace event)))))
  end.
Proof.
  intros args. unfold from_console_api_called. fold args.
  destruct (render args) as [text|e]; [|done]. split.
  { intros Hout. by rewrite (parse_cdp_timestamp_out_of_range _ Hout). }
  intros Hrange. rewrite (parse_cdp_timestamp_in_range _ Hrange).
  eexists. split; [reflexivity|]. cbn [LogEvent.ts LogEvent.kind LogEvent.text
    LogEvent.stack LogEvent.target LogEvent.level LogEvent.args LogEvent.source].
  unfold _extract_arg_values. rewrite extract_arg_values_loop_map. simpl app.
  repeat (split; [done|]). split; [by intros ->|].
  split; [by rewrite length_map|]. split.
  - intros i arg Harg. exists (arg_value arg).
    split; [by rewrite list_lookup_fmap, Harg|].
    unfold arg_value. split; [|split].
    + by intros [-> | [-> | ->]].
    + by intros ->.
    + by intros -> ->.
  - by destruct (default [] (callFrames _)).
Qed.

Lemma stream_logs_app (render : list ConsoleArg -> result string)
    (ti : option TargetInfo) (events later : list LogSourceEvent) :
  stream_logs render ti (events ++ later) =
    match (stream_logs render ti events).2 with
    | Some e => stream_logs render ti events
    | None =>
      ((stream_logs render ti events).1 ++ (stream_logs render ti later).1,
       (stream_logs render ti later).2)
    end.
Proof.
  induction events as [|event rest IH]; simpl.
  - by destruct (stream_logs render ti later).
  - destruct (stream_logs_event render ti event) as [yielded|e]; [|done].
    rewrite IH. destruct (stream_logs render ti rest) as [ys [e|]]; simpl; [done|].
    destruct (stream_logs render ti later) as [ys' err]. simpl.
    by rewrite app_assoc.
Qed.

(** X27. One payload that fails to normalise ends the whole log stream:
    [stream_logs] yields the log events of the inputs before it, then the
    exception escapes the generator and no later event is looked at.  An
    uncaught [throw true] in the page is such a payload. *)
Theorem stream_logs_ends_at_first_failure (render : list ConsoleArg -> result string)
    (ti : option TargetInfo) (before after : list LogSourceEvent)
    (bad : LogSourceEvent) (e : exn) :
  (stream_logs render ti before).2 = None ->
  stream_logs_event render ti bad = Raise e ->
  stream_logs render ti (before ++ bad :: after) =
    ((stream_logs render ti before).1, Some e).
Proof.
  intros Hbefore Hbad. rewrite stream_logs_app, Hbefore. simpl. rewrite Hbad.
  simpl. by rewrite app_nil_r.
Qed.

Lemma stream_logs_ends_at_first_failure_witness :
  stream_logs (fun _ => Ok "")  None
    ([] ++ {| ls_method := Some "Runtime.exceptionThrown";
              ls_params := Some {| lp_console := no_console_called;
                                   lp_exception := thrown_true;
                                   lp_entry := {| entry := None |} |} |} ::
           [ {| ls_method := Some "Log.entryAdded"; ls_params := None |} ]) =
    ([], Some (ValidationError "text")).
Proof.
  apply (stream_logs_ends_at_first_failure (fun _ => Ok "") None []
           [ {| ls_method := Some "Log.entryAdded"; ls_params := None |} ]
           {| ls_method := Some "Runtime.exceptionThrown";
              ls_params := Some {| lp_console := no_console_called;
                                   lp_exception := thrown_true;
                                   lp_entry := {| entry := None |} |} |}
           (ValidationError "text")); reflexivity.
Defined.

(** X28. [stream_logs] looks at three methods only.  An event of any other
    method yields nothing.  A [Log.entryAdded] event yields exactly one log
    event, of kind browser_log, when the timestamp of its entry is absent
    or an instant that a [datetime] can hold -- so also with no parameters
    at all -- and ends the stream with the error of
    [datetime.fromtimestamp] otherwise.  The stream yields at most one log
    event per input event. *)
Theorem stream_logs_dispatch (render : list ConsoleArg -> result string)
    (ti : option TargetInfo) (events : list LogSourceEvent) :
  (forall event,
     default "" (ls_method event) <> "Runtime.consoleAPICalled" ->
     default "" (ls_method event) <> "Runtime.exceptionThrown" ->
     default "" (ls_method event) <> "Log.entryAdded" ->
     stream_logs_event render ti event = Ok []) /\
  (forall params,
     let timestamp :=
       le_timestamp
         (default no_log_entry (entry (lp_entry (default no_log_params params)))) in
     let event := {| ls_method := Some "Log.entryAdded"; ls_params := params |} in
     (in_datetime_range timestamp ->
      exists ev,
        stream_logs_event render ti event = Ok [ev] /\ LogEvent.kind ev = BROWSER_LOG) /\
     (~ in_datetime_range timestamp ->
      stream_logs_event render ti event = Raise TimestampError /\
      forall later, stream_logs render ti (event :: later) = ([], Some TimestampError))) /\
  (exists ev,
     stream_logs_event render ti
       {| ls_method := Some "Log.entryAdded"; ls_params := None |} = Ok [ev] /\
     LogEvent.kind ev = BROWSER_LOG) /\
  (length (stream_logs render ti events).1 <= length events)%nat.
Proof.
  split; [|split; [|split]].
  - intros event H1 H2 H3. unfold stream_logs_event.
    by rewrite (proj2 (String.eqb_neq _ _) H1), (proj2 (String.eqb_neq _ _) H2),
      (proj2 (String.eqb_neq _ _) H3).
  - intros params timestamp event. subst timestamp event. split.
    + intros Hrange. unfold stream_logs_event, from_log_entry_added.
      cbn [ls_method ls_params String.eqb Ascii.eqb Bool.eqb]. cbv zeta.
      rewrite (parse_cdp_timestamp_in_range _ Hrange).
      eexists. split; reflexivity.
    + intros Hout.
      assert (Hstep : stream_logs_event render ti
                {| ls_method := Some "Log.entryAdded"; ls_params := params |} =
                Raise TimestampError).
      { unfold stream_logs_event, from_log_entry_added.
        cbn [ls_method ls_params String.eqb Ascii.eqb Bool.eqb]. cbv zeta.
        by rewrite (parse_cdp_timestamp_out_of_range _ Hout). }
      split; [exact Hstep|]. intros later. cbn [stream_logs]. by rewrite Hstep.
  - eexists. split; reflexivity.
  - induction events as [|event rest IH]; simpl; [lia|].
    assert (Hone : forall ys, stream_logs_event render ti event = Ok ys ->
                     (length ys <= 1)%nat).
    { unfold stream_logs_event. intros ys.
      destruct (String.eqb _ "Runtime.consoleAPICalled").
      { destruct (from_console_api_called _ _ _); [|done]. by intros [= <-]. }
      destruct (String.eqb _ "Runtime.exceptionThrown").
      { destruct (from_exception_thrown _ _); [|done]. by intros [= <-]. }
      destruct (String.eqb _ "Log.entryAdded"); [|intros [= <-]; simpl; lia].
      destruct (from_log_entry_added _ _); [|done]. by intros [= <-]. }
    destruct (stream_logs_event render ti event) as [yielded|e]; simpl; [|lia].
    specialize (Hone yielded eq_refl).
    destruct (stream_logs render ti rest) as [later err]. simpl in *.
    rewrite length_app. lia.
Qed.

Lemma console_yields (clicks : bool) (log_event : LogEvent.t) :
  let ys := (if clicks then yield_if (from_click_console log_event) else []) ++
            yield_if (from_message_console log_event) in
  (length ys <= 1)%nat /\
  Forall (fun e => WatchEvent.kind e = MESSAGE \/
                   clicks = true /\ WatchEvent.kind e = CLICK) ys.
Proof.
  intros ys. unfold ys.
  destruct (click_or_message log_event) as [Hclick | Hmessage].
  - rewrite Hclick. replace (if clicks then yield_if None else [])
      with (@nil WatchEvent.t) by (by destruct clicks).
    unfold from_message_console. destruct (String.prefix _ _); simpl.
    + split; [lia|]. constructor; [by left | constructor].
    + split; [lia | constructor].
  - rewrite Hmessage. simpl. rewrite app_nil_r.
    destruct clicks; [|simpl; split; [lia | constructor]].
    unfold from_click_console. destruct (String.prefix _ _); simpl.
    + split; [lia|]. constructor; [by right | constructor].
    + split; [lia | constructor].
Qed.

(** X29. [stream_watch] yields at most one watch event per input event: a
    console text is a click or a message, never both, and an event has one
    method.  A click is yielded only with [clicks]; a request, redirect or
    navigation only with [network].  A console call is normalised whatever
    the switches are: when that raises, the stream ends; a message text is
    yielded whatever the switches are; a click text is yielded exactly when
    [clicks] is on; any other console text yields nothing. *)
Theorem stream_watch_one_event_per_input (render : list ConsoleArg -> result string)
    (clicks network document_only : bool) (ti : option TargetInfo)
    (events : list WatchSourceEvent) :
  (length (stream_watch render clicks network document_only ti events).1
     <= length events)%nat /\
  Forall (fun e =>
            WatchEvent.kind e = MESSAGE \/
            clicks = true /\ WatchEvent.kind e = CLICK \/
            network = true /\
              (WatchEvent.kind e = REQUEST \/ WatchEvent.kind e = REDIRECT \/
               WatchEvent.kind e = NAVIGATION))
         (stream_watch render clicks network document_only ti events).1 /\
  (forall params,
     let event :=
       {| ws_method := Some "Runtime.consoleAPICalled"; ws_params := params |} in
     match from_console_api_called render
             (wp_console (default no_watch_params params)) ti with
     | Raise e =>
       stream_watch_event render clicks network document_only ti event = Raise e
     | Ok log_event =>
       (forall message, from_message_console log_event = Some message ->
          WatchEvent.kind message = MESSAGE /\
          stream_watch_event render clicks network document_only ti event =
            Ok [message]) /\
       (forall click, from_click_console log_event = Some click ->
          WatchEvent.kind click = CLICK /\
          stream_watch_event render clicks network document_only ti event =
            Ok (if clicks then [click] else [])) /\
       (from_message_console log_event = None -> from_click_console log_event = None ->
        stream_watch_event render clicks network document_only ti event = Ok [])
     end).
Proof.
  assert (Hone : forall event ys,
            stream_watch_event render clicks network document_only ti event = Ok ys ->
            (length ys <= 1)%nat /\
            Forall (fun e =>
                      WatchEvent.kind e = MESSAGE \/
                      clicks = true /\ WatchEvent.kind e = CLICK \/
                      network = true /\
                        (WatchEvent.kind e = REQUEST \/ WatchEvent.kind e = REDIRECT \/
                         WatchEvent.kind e = NAVIGATION)) ys).
  { intros event ys. unfold stream_watch_event.
    destruct (String.eqb_spec (default "" (ws_method event)) "Runtime.consoleAPICalled")
      as [->|_].
    - destruct (from_console_api_called _ _ _) as [log_event|e]; [|done].
      rewrite !andb_false_r. simpl. rewrite !app_nil_r. intros [= <-].
      destruct (console_yields clicks log_event) as [Hlen Hkinds].
      split; [done|]. eapply Forall_impl; [exact Hkinds|]. simpl. tauto.
    - destruct (String.eqb_spec (default "" (ws_method event)) "Network.requestWillBeSent")
        as [->|_].
      + rewrite !andb_false_r. simpl.
        destruct network; simpl; [|intros [= <-]; split; [simpl; lia | constructor]].
        destruct (document_only && negb _); [intros [= <-]; simpl; split;
          [lia | constructor]|].
        unfold from_request_will_be_sent.
        destruct (_parse_cdp_timestamp _); [|done]. intros [= <-]. simpl.
        split; [lia|]. constructor; [|constructor].
        right; right. split; [done|]. simpl.
        destruct (response_truthy _); tauto.
      + rewrite !andb_false_r. simpl.
        destruct (network && String.eqb _ "Page.frameNavigated") eqn:Hnav; simpl.
        * apply andb_prop in Hnav as [-> _].
          destruct (truthy _); intros [= <-]; simpl.
          { split; [lia | constructor]. }
          split; [lia|]. constructor; [|constructor]. simpl. tauto.
        * intros [= <-]. split; [simpl; lia | constructor]. }
  split; [|split].
  - induction events as [|event rest IH]; simpl; [lia|].
    specialize (Hone event).
    destruct (stream_watch_event render clicks network document_only ti event)
      as [yielded|e]; simpl; [|lia].
    destruct (Hone yielded eq_refl) as [Hlen _].
    destruct (stream_watch render clicks network document_only ti rest) as [later err].
    simpl in *. rewrite length_app. lia.
  - induction events as [|event rest IH]; simpl; [constructor|].
    specialize (Hone event).
    destruct (stream_watch_event render clicks network document_only ti event)
      as [yielded|e]; simpl; [|constructor].
    destruct (Hone yielded eq_refl) as [_ Hkinds].
    destruct (stream_watch render clicks network document_only ti rest) as [later err].
    simpl in *. by apply Forall_app.
  - intros params event. unfold event, stream_watch_event.
    cbn [ws_method ws_params from_option id String.eqb Ascii.eqb Bool.eqb].
    destruct (from_console_api_called _ _ _) as [log_event|e]; [|done].
    rewrite !andb_false_r. cbn [andb]. rewrite !app_nil_r.
    destruct (click_or_message log_event) as [Hclick | Hmessage].
    + rewrite Hclick.
      replace (if clicks then yield_if None else []) with (@nil WatchEvent.t)
        by (by destruct clicks).
      split; [|split]; [|done|by intros ->].
      intros message Hm. rewrite Hm. split; [|done].
      unfold from_message_console in Hm.
      destruct (String.prefix _ _); by simplify_eq.
    + rewrite Hmessage. simpl. rewrite app_nil_r.
      split; [done|]. split; [|intros _ ->; by destruct clicks].
      intros click Hc. rewrite Hc. split; [|by destruct clicks].
      unfold from_click_console in Hc.
      destruct (String.prefix _ _); by simplify_eq.
Qed.

(** X30. What [stream_watch] lets through from the network side, whatever
    the console renderer does.  A [Page.frameNavigated] yields a navigation
    event exactly when [network] is on and the frame has no parent (no
    [parentId], or an empty one): navigations of nested frames are never
    shown, and this never raises.  A [Network.requestWillBeSent] is let
    through exactly when [network] is on and either [document_only] is off
    or the resource type is exactly ["Document"]; a request without a type
    is hidden in document-only mode.  A request that is let through yields
    its event, of kind redirect exactly when it carries a non-empty
    redirect response, when its timestamp is absent or an instant that a
    [datetime] can hold, and ends the stream with the error of
    [datetime.fromtimestamp] otherwise. *)
Theorem stream_watch_network_side (render : list ConsoleArg -> result string)
    (clicks network document_only : bool) (ti : option TargetInfo)
    (params : WatchParams) :
  let request_event :=
    {| ws_method := Some "Network.requestWillBeSent"; ws_params := Some params |} in
  let let_through :=
    network &&
    (negb document_only || String.eqb (default "" (type (wp_network params))) "Document") in
  stream_watch_event render clicks network document_only ti
    {| ws_method := Some "Page.frameNavigated"; ws_params := Some params |} =
    Ok (if network && negb (truthy (wp_frame params ≫= nf_parentId))
        then [from_frame_navigated (wp_frame params) ti] else []) /\
  (let_through = false ->
   stream_watch_event render clicks network document_only ti request_event = Ok []) /\
  (let_through = true -> in_datetime_range (timestamp (wp_network params)) ->
   exists ev,
     from_request_will_be_sent (wp_network params) ti = Ok ev /\
     stream_watch_event render clicks network document_only ti request_event = Ok [ev] /\
     WatchEvent.kind ev =
       (if response_truthy (redirectResponse (wp_network params)) then REDIRECT
        else REQUEST)) /\
  (let_through = true -> ~ in_datetime_range (timestamp (wp_network params)) ->
   stream_watch_event render clicks network document_only ti request_event =
     Raise TimestampError) /\
  (type (wp_network params) = None -> document_only = true ->
   stream_watch_event render clicks network document_only ti request_event = Ok []).
Proof.
  intros request_event let_through.
  assert (Hrequest :
    stream_watch_event render clicks network document_only ti request_event =
      if let_through then
        match from_request_will_be_sent (wp_network params) ti with
        | Ok ev => Ok [ev]
        | Raise e => Raise e
        end
      else Ok []).
  { unfold stream_watch_event, request_event, let_through.
    cbn [ws_method ws_params from_option id String.eqb Ascii.eqb Bool.eqb].
    rewrite !andb_false_r, !andb_true_r. cbn [andb].
    destruct network, document_only; simpl; try done.
    - destruct (String.eqb _ "Document"); simpl; [|done].
      by destruct (from_request_will_be_sent _ _).
    - by destruct (from_request_will_be_sent _ _). }
  split; [|split; [|split; [|split]]].
  - unfold stream_watch_event.
    cbn [ws_method ws_params from_option id String.eqb Ascii.eqb Bool.eqb].
    rewrite !andb_false_r, !andb_true_r. cbn [andb].
    destruct network; simpl; [|done].
    by destruct (truthy _).
  - intros Hlet. by rewrite Hrequest, Hlet.
  - intros Hlet Hrange. rewrite Hrequest, Hlet.
    unfold from_request_will_be_sent.
    rewrite (parse_cdp_timestamp_in_range _ Hrange).
    eexists. split; [reflexivity|]. split; reflexivity.
  - intros Hlet Hout. rewrite Hrequest, Hlet.
    unfold from_request_will_be_sent.
    by rewrite (parse_cdp_timestamp_out_of_range _ Hout).
  - intros Htype ->. rewrite Hrequest. unfold let_through. rewrite Htype. simpl.
    by rewrite andb_false_r.
Qed.

Lemma stream_watch_network_side_witness :
  stream_watch_event (fun _ => Ok "") true true true None
    {| ws_method := Some "Network.requestWillBeSent";
       ws_params := Some no_watch_params |} = Ok [].
Proof.
  refine (proj2 (proj2 (proj2 (proj2 (stream_watch_network_side (fun _ => Ok "")
    true true true None no_watch_params)))) _ _); reflexivity.
Defined.
